(** * NoBSGoValidator: a shallow embedding of [validator.go]

    The repository ships the validation engine twice: once with the rule and
    type-handler tables inside an explicit [Validator] object (constructor
    [New]), once with the tables in package-level variables (set up by
    [Init], entry point [ValidateStruct]).  Both are embedded below, each in
    a module of its own, on top of a common model of Go's dynamic values,
    of [float64], of the pieces of [strings], [unicode/utf8], [errors] and
    [fmt] that the code calls, and of panics. *)

From Stdlib Require Import ZArith String Ascii List Bool Lia.
From Stdlib Require Import Floats.SpecFloat.
From stdpp Require Import base option list gmap strings.

Local Open Scope string_scope.
Local Open Scope Z_scope.
Local Open Scope list_scope.

(** ** Panics and formatted text *)

(** A type descriptor ([reflect.Type]): [type_string] is what the verb [%T]
    prints and identifies the type, [type_name] is what [Type.Name()]
    returns (empty for unnamed types). *)
Record rtype := mk_rtype { type_string : string; type_name : string }.

#[global] Instance rtype_eq_dec : EqDecision rtype.
Proof. solve_decision. Defined.

#[global] Instance rtype_countable : Countable rtype.
Proof.
  refine (inj_countable' (fun t => (type_string t, type_name t))
                         (fun p => mk_rtype p.1 p.2) _).
  by intros [].
Defined.

(** The predeclared type [string]. *)
Definition string_type : rtype := mk_rtype "string" "string".

(** [float64]: IEEE 754 binary64, 53 bits of precision. *)
Definition float64 := spec_float.

(** An operand handed to a formatting verb. *)
Inductive fmt_arg :=
  | ArgInt (n : Z)                 (* for [%d] *)
  | ArgFloat (f : float64)         (* for [%v] on a float64 *)
  | ArgType (t : option rtype).    (* for [%T]; [None] is the nil interface *)

(** A text is a literal, or a format string kept together with its operands
    ([fmt.Sprintf] is not rendered). *)
Inductive text :=
  | Lit (s : string)
  | Sprintf (format : string) (args : list fmt_arg).

(** The result of running Go code: a value, or a panic. *)
Inductive outcome (A : Type) :=
  | Ok (a : A)
  | Panic (v : text).
Arguments Ok {A} a.
Arguments Panic {A} v.

#[global] Instance outcome_ret : MRet outcome := fun _ a => Ok a.
#[global] Instance outcome_bind : MBind outcome := fun _ _ f m =>
  match m with
  | Ok a => f a
  | Panic v => Panic v
  end.

(** The runtime's own panics. *)
Definition nil_dereference : text :=
  Lit "runtime error: invalid memory address or nil pointer dereference".
Definition nil_map_assignment : text := Lit "assignment to entry in nil map".

(** A failed assertion [x.(T)] on a value [x] of type [any] panics with a
    [*runtime.TypeAssertionError]; this is its text, which names the dynamic
    type of [x] (nil for the nil interface) and the type asserted. *)
Definition interface_conversion (dynamic : option rtype) (asserted : rtype) : text :=
  Lit ("interface conversion: interface {} is "
       +:+ match dynamic with
           | Some T => type_string T
           | None => "nil"
           end
       +:+ ", not " +:+ type_string asserted).
Definition reflect_wrong_kind (method : string) : text :=
  Lit ("reflect: call of reflect.Value." +:+ method +:+ " on wrong Kind").

(** ** Errors: [errors.New] and [fmt.Errorf] *)

Record error := mk_error { Error : text }.

Definition errors_New (message : string) : error := mk_error (Lit message).

(** None of the formats of this package uses [%w], so [fmt.Errorf] is
    [errors.New] of the formatted text. *)
Definition fmt_Errorf (format : string) (args : list fmt_arg) : error :=
  mk_error (Sprintf format args).

(** ** Dynamic values: [any] and [reflect] *)

Module reflect.
Inductive Kind :=
  | Invalid | Bool
  | Int | Int8 | Int16 | Int32 | Int64
  | Uint | Uint8 | Uint16 | Uint32 | Uint64 | Uintptr
  | Float32 | Float64 | Complex64 | Complex128
  | Array | Chan | Func | Interface | Map | Pointer | Slice
  | String | Struct | UnsafePointer.

#[global] Instance Kind_eq_dec : EqDecision Kind.
Proof. solve_decision. Defined.
End reflect.

Inductive int_kind := KInt | KInt8 | KInt16 | KInt32 | KInt64.
Inductive uint_kind := KUint | KUint8 | KUint16 | KUint32 | KUint64 | KUintptr.
Inductive float_kind := KFloat32 | KFloat64.
Inductive other_kind :=
  | KBool | KComplex64 | KComplex128 | KChan | KFunc | KPointer
  | KUnsafePointer.

(** A value of interface type [any]: the nil interface, or a dynamic type
    [T] with a value whose shape fixes the type's kind.  Strings are byte
    strings, as in Go; channels, functions, pointers and the like are kept
    opaque. *)
#[warnings="-register-all"]
Inductive any :=
  | Nil
  | VString (T : rtype) (s : string)
  | VInt (T : rtype) (k : int_kind) (n : Z)
  | VUint (T : rtype) (k : uint_kind) (n : Z)
  | VFloat (T : rtype) (k : float_kind) (f : float64)
  | VArray (T : rtype) (elems : list any)
  | VSlice (T : rtype) (elems : list any)
  | VMap (T : rtype) (entries : list (any * any))
  | VStruct (T : rtype) (fields : list (string * any))
  | VOther (T : rtype) (k : other_kind).

(** [reflect.TypeOf]; nil for the nil interface. *)
Definition TypeOf (a : any) : option rtype :=
  match a with
  | Nil => None
  | VString T _ | VInt T _ _ | VUint T _ _ | VFloat T _ _
  | VArray T _ | VSlice T _ | VMap T _ | VStruct T _ | VOther T _ => Some T
  end.

(** [reflect.ValueOf(a).Kind()]. *)
Definition Kind_of (a : any) : reflect.Kind :=
  match a with
  | Nil => reflect.Invalid
  | VString _ _ => reflect.String
  | VInt _ KInt _ => reflect.Int
  | VInt _ KInt8 _ => reflect.Int8
  | VInt _ KInt16 _ => reflect.Int16
  | VInt _ KInt32 _ => reflect.Int32
  | VInt _ KInt64 _ => reflect.Int64
  | VUint _ KUint _ => reflect.Uint
  | VUint _ KUint8 _ => reflect.Uint8
  | VUint _ KUint16 _ => reflect.Uint16
  | VUint _ KUint32 _ => reflect.Uint32
  | VUint _ KUint64 _ => reflect.Uint64
  | VUint _ KUintptr _ => reflect.Uintptr
  | VFloat _ KFloat32 _ => reflect.Float32
  | VFloat _ KFloat64 _ => reflect.Float64
  | VArray _ _ => reflect.Array
  | VSlice _ _ => reflect.Slice
  | VMap _ _ => reflect.Map
  | VStruct _ _ => reflect.Struct
  | VOther _ KBool => reflect.Bool
  | VOther _ KComplex64 => reflect.Complex64
  | VOther _ KComplex128 => reflect.Complex128
  | VOther _ KChan => reflect.Chan
  | VOther _ KFunc => reflect.Func
  | VOther _ KPointer => reflect.Pointer
  | VOther _ KUnsafePointer => reflect.UnsafePointer
  end.

(** [len] of a string counts bytes. *)
Definition len (s : string) : Z := Z.of_nat (String.length s).

(** [Value.Len], [Value.Int], [Value.Uint] and [Value.Float]; each panics on
    a value of another kind ([Len] is also defined on channels, which this
    model keeps opaque). *)
Definition rv_Len (rv : any) : outcome Z :=
  match rv with
  | VString _ s => Ok (len s)
  | VArray _ xs | VSlice _ xs => Ok (Z.of_nat (length xs))
  | VMap _ kvs => Ok (Z.of_nat (length kvs))
  | _ => Panic (reflect_wrong_kind "Len")
  end.

Definition rv_Int (rv : any) : outcome Z :=
  match rv with
  | VInt _ _ n => Ok n
  | _ => Panic (reflect_wrong_kind "Int")
  end.

Definition rv_Uint (rv : any) : outcome Z :=
  match rv with
  | VUint _ _ n => Ok n
  | _ => Panic (reflect_wrong_kind "Uint")
  end.

Definition rv_Float (rv : any) : outcome float64 :=
  match rv with
  | VFloat _ _ f => Ok f
  | _ => Panic (reflect_wrong_kind "Float")
  end.

(** The comma-ok type assertion [p.(string)]: it succeeds exactly on values
    whose dynamic type is the predeclared [string]. *)
Definition assert_string (p : any) : option string :=
  match p with
  | VString T s => if decide (T = string_type) then Some s else None
  | _ => None
  end.

(** ** [float64] conversion and comparison *)

(** The conversion [float64(n)] of an integer: round to nearest, ties to
    even. *)
Definition float64_of_Z (n : Z) : float64 := binary_normalize 53 1024 n 0 false.

Definition f64_le (x y : float64) : bool := SFleb x y.   (* x <= y *)
Definition f64_ge (x y : float64) : bool := SFleb y x.   (* x >= y *)
Definition f64_gt (x y : float64) : bool := SFltb y x.   (* x > y *)
Definition f64_lt (x y : float64) : bool := SFltb x y.   (* x < y *)

Definition is_nan (x : float64) : bool :=
  match x with
  | S754_nan => true
  | _ => false
  end.

(** ** UTF-8 decoding, [unicode.IsSpace] and [strings.TrimSpace] *)

Definition bytes (s : string) : list Z :=
  map (fun a => Z.of_N (N_of_ascii a)) (list_ascii_of_string s).

Definition RuneError : Z := 0xFFFD.

Definition between (lo hi b : Z) : bool := (lo <=? b) && (b <=? hi).

(** Size of the sequence a first byte announces, with the range accepted
    for the second byte; size 0 marks an invalid first byte. *)
Definition first (p0 : Z) : nat * Z * Z :=
  if between 0xC2 0xDF p0 then (2%nat, 0x80, 0xBF)
  else if p0 =? 0xE0 then (3%nat, 0xA0, 0xBF)
  else if between 0xE1 0xEC p0 then (3%nat, 0x80, 0xBF)
  else if p0 =? 0xED then (3%nat, 0x80, 0x9F)
  else if between 0xEE 0xEF p0 then (3%nat, 0x80, 0xBF)
  else if p0 =? 0xF0 then (4%nat, 0x90, 0xBF)
  else if between 0xF1 0xF3 p0 then (4%nat, 0x80, 0xBF)
  else if p0 =? 0xF4 then (4%nat, 0x80, 0x8F)
  else (0%nat, 0, 0).

Definition cont (b : Z) : bool := between 0x80 0xBF b.

(** [utf8.DecodeRune]: the rune at the head of [p] and its width; an
    invalid or truncated sequence yields [RuneError] of width 1. *)
Definition DecodeRune (p : list Z) : Z * nat :=
  match p with
  | [] => (RuneError, 0%nat)
  | p0 :: t =>
    if p0 <? 0x80 then (p0, 1%nat)
    else
      let '(sz, lo, hi) := first p0 in
      match sz, t with
      | 2%nat, b1 :: _ =>
        if between lo hi b1
        then (Z.lor (Z.shiftl (Z.land p0 0x1F) 6) (Z.land b1 0x3F), 2%nat)
        else (RuneError, 1%nat)
      | 3%nat, b1 :: b2 :: _ =>
        if between lo hi b1 && cont b2
        then (Z.lor (Z.shiftl (Z.land p0 0x0F) 12)
                (Z.lor (Z.shiftl (Z.land b1 0x3F) 6) (Z.land b2 0x3F)), 3%nat)
        else (RuneError, 1%nat)
      | 4%nat, b1 :: b2 :: b3 :: _ =>
        if between lo hi b1 && cont b2 && cont b3
        then (Z.lor (Z.shiftl (Z.land p0 0x07) 18)
                (Z.lor (Z.shiftl (Z.land b1 0x3F) 12)
                   (Z.lor (Z.shiftl (Z.land b2 0x3F) 6) (Z.land b3 0x3F))), 4%nat)
        else (RuneError, 1%nat)
      | _, _ => (RuneError, 1%nat)
      end
  end.

(** The runes of a byte sequence with their widths, as [for range] over a
    string visits them; [skip] counts the bytes still covered by the rune
    decoded last. *)
Fixpoint decode (skip : nat) (p : list Z) : list (Z * nat) :=
  match p with
  | [] => []
  | _ :: t =>
    match skip with
    | S k => decode k t
    | O => let '(r, sz) := DecodeRune p in (r, sz) :: decode (sz - 1) t
    end
  end.

Definition runes (s : string) : list Z := map fst (decode 0 (bytes s)).

(** [unicode.IsSpace]. *)
Definition IsSpace (r : Z) : bool :=
  between 0x09 0x0D r || (r =? 0x20) || (r =? 0x85) || (r =? 0xA0)
  || (r =? 0x1680) || between 0x2000 0x200A r || (r =? 0x2028)
  || (r =? 0x2029) || (r =? 0x202F) || (r =? 0x205F) || (r =? 0x3000).

Fixpoint drop_spaces (rs : list (Z * nat)) : list (Z * nat) :=
  match rs with
  | [] => []
  | (r, sz) :: t => if IsSpace r then drop_spaces t else rs
  end.

Definition width (rs : list (Z * nat)) : nat := foldr (fun p n => (p.2 + n)%nat) 0%nat rs.

(** [strings.TrimSpace]: the string without its leading and trailing white
    space, as Unicode defines it. *)
Definition TrimSpace (s : string) : string :=
  let rs := decode 0 (bytes s) in
  let rs1 := drop_spaces rs in
  let rs2 := rev (drop_spaces (rev rs1)) in
  substring (width rs - width rs1) (width rs2) s.

(** ** The built-in rules

    A rule body takes the operands of the [Check] call and returns nil
    ([None]) or an error, or panics.  The bodies below are pure; the
    registries store them lifted to rule functions. *)

Definition rune (c : ascii) : Z := Z.of_N (N_of_ascii c).

(** The [switch rv.Kind()] that reduces an operand to a [float64]: strings,
    arrays and slices (and maps, where the switch lists [reflect.Map]) by
    their length, numbers by their value; [None] is the [default] branch. *)
Definition reduce (with_map : bool) (rv : any) : outcome (option float64) :=
  match Kind_of rv with
  | reflect.String | reflect.Array | reflect.Slice =>
    n ← rv_Len rv; mret (Some (float64_of_Z n))
  | reflect.Map =>
    if with_map then n ← rv_Len rv; mret (Some (float64_of_Z n)) else mret None
  | reflect.Int | reflect.Int8 | reflect.Int16 | reflect.Int32 | reflect.Int64 =>
    n ← rv_Int rv; mret (Some (float64_of_Z n))
  | reflect.Uint | reflect.Uint8 | reflect.Uint16 | reflect.Uint32
  | reflect.Uint64 | reflect.Uintptr =>
    n ← rv_Uint rv; mret (Some (float64_of_Z n))
  | reflect.Float32 | reflect.Float64 =>
    f ← rv_Float rv; mret (Some f)
  | _ => mret None
  end.

(** The loop [for i, arg := range params[1:]] of [greaterThan]. *)
Fixpoint greaterThan_loop (comparer : float64) (i : Z) (args : list any)
  : outcome (option error) :=
  match args with
  | [] => Ok None
  | arg :: rest =>
    v ← reduce false arg;
    match v with
    | None =>
      Ok (Some (fmt_Errorf "greaterThan: unsupported type %T at position %d"
                  [ArgType (TypeOf arg); ArgInt (i + 2)]))
    | Some val =>
      if f64_le val comparer
      then Ok (Some (fmt_Errorf
             "greaterThan: parameter at position %d (= %v) is not greater than %v"
             [ArgInt (i + 2); ArgFloat val; ArgFloat comparer]))
      else greaterThan_loop comparer (i + 1) rest
    end
  end.

(** [greaterThan], the same text in [New] and in [Init]. *)
Definition greaterThan (params : list any) : outcome (option error) :=
  match params with
  | first :: ((_ :: _) as rest) =>
    c ← reduce true first;
    match c with
    | None =>
      Ok (Some (fmt_Errorf "greaterThan: unsupported type %T for comparer"
                  [ArgType (TypeOf first)]))
    | Some comparer => greaterThan_loop comparer 0 rest
    end
  | _ =>
    Panic (Sprintf "greaterThan: expected at least 2 parameters, got %d"
             [ArgInt (Z.of_nat (length params))])
  end.

(** The loop [for i, arg := range params[1:]] of [lessThan]. *)
Fixpoint lessThan_loop (comparer : float64) (i : Z) (args : list any)
  : outcome (option error) :=
  match args with
  | [] => Ok None
  | arg :: rest =>
    v ← reduce false arg;
    match v with
    | None =>
      Ok (Some (fmt_Errorf "lessThan: unsupported type %T at position %d"
                  [ArgType (TypeOf arg); ArgInt (i + 2)]))
    | Some val =>
      if f64_ge val comparer
      then Ok (Some (fmt_Errorf
             "lessThan: parameter at position %d (= %v) is not less than %v"
             [ArgInt (i + 2); ArgFloat val; ArgFloat comparer]))
      else lessThan_loop comparer (i + 1) rest
    end
  end.

(** [lessThan], the same text in [New] and in [Init]. *)
Definition lessThan (params : list any) : outcome (option error) :=
  match params with
  | first :: ((_ :: _) as rest) =>
    c ← reduce false first;
    match c with
    | None =>
      Ok (Some (fmt_Errorf "lessThan: unsupported type %T for comparer"
                  [ArgType (TypeOf first)]))
    | Some comparer => lessThan_loop comparer 0 rest
    end
  | _ =>
    Panic (Sprintf "lessThan: expected at least 2 parameters, got %d"
             [ArgInt (Z.of_nat (length params))])
  end.

(** The flags of the scan of [isEmail]. *)
Record email_scan := mk_scan {
  ampIsThere : bool;
  spacesThere : bool;
  textBeforeAmp : bool;
  textAfterAmp : bool;
  dotAfterAmp : bool;
  otherError : bool
}.

Definition scan_start : email_scan := mk_scan false false false false false false.

(** One turn of [for _, r := range email]. *)
Definition scan_rune (st : email_scan) (r : Z) : email_scan :=
  let '(mk_scan amp spaces before after dot other) := st in
  let st1 :=
    if r =? rune "@" then mk_scan true spaces before after dot (if amp then true else other)
    else if negb amp then mk_scan amp spaces true after dot other
    else if r =? rune "." then mk_scan amp spaces before after true other
    else mk_scan amp spaces before true dot other in
  if (r =? rune " ") || (r =? rune ",")
  then mk_scan (ampIsThere st1) true (textBeforeAmp st1) (textAfterAmp st1)
         (dotAfterAmp st1) (otherError st1)
  else st1.

Definition scan_rejects (st : email_scan) : bool :=
  spacesThere st || negb (ampIsThere st) || negb (textAfterAmp st)
  || negb (textBeforeAmp st) || negb (dotAfterAmp st) || otherError st.

(** [isEmail], registered by [New] only. *)
Definition isEmail (param : list any) : outcome (option error) :=
  match param with
  | [] => Panic (Lit "No parameters passed to email rule")
  | p0 :: _ =>
    match assert_string p0 with
    | None => Panic (Lit "Parameter passed to email rule is not a string")
    | Some email =>
      let st := fold_left scan_rune (runes email) scan_start in
      if scan_rejects st
      then Ok (Some (errors_New
             "Email addresses must be valid, working, and must have no commas or spaces"))
      else Ok None
    end
  end.

(** [notEmpty] as [New] registers it. *)
Fixpoint notEmpty_New (param : list any) : outcome (option error) :=
  match param with
  | [] => Ok None
  | p :: rest =>
    length ←
      match Kind_of p with
      | reflect.Array | reflect.Slice | reflect.Map => rv_Len p
      | reflect.String =>
        match assert_string p with
        | Some s => Ok (len (TrimSpace s))
        | None => Panic (interface_conversion (TypeOf p) string_type)
        end
      | _ => Ok 0
      end;
    if length =? 0
    then Ok (Some (errors_New "required rule failed"))
    else notEmpty_New rest
  end.

(** [notEmpty] as [Init] registers it. *)
Fixpoint notEmpty_Init (param : list any) : outcome (option error) :=
  match param with
  | [] => Ok None
  | p :: rest =>
    match assert_string p with
    | None => notEmpty_Init rest
    | Some str =>
      if len (TrimSpace str) =? 0
      then Ok (Some (errors_New "rule required failed"))
      else notEmpty_Init rest
    end
  end.

(** Literals of the predeclared types, for the examples. *)
Definition int_type : rtype := mk_rtype "int" "int".
Definition int64_type : rtype := mk_rtype "int64" "int64".
Definition float64_type : rtype := mk_rtype "float64" "float64".
Definition str (s : string) : any := VString string_type s.
Definition int (n : Z) : any := VInt int_type KInt n.
Definition int64 (n : Z) : any := VInt int64_type KInt64 n.
Definition uint (n : Z) : any := VUint (mk_rtype "uint" "uint") KUint n.
Definition f64 (f : float64) : any := VFloat float64_type KFloat64 f.
Definition ints (ns : list Z) : any := VSlice (mk_rtype "[]int" "") (map int ns).
Definition no_entries : any := VMap (mk_rtype "map[string]int" "") [].

(** ** Stateful code

    Code that reads and writes a state [St] and may panic; a panic keeps the
    state it was raised in. *)

Definition M (St A : Type) : Type := St → outcome A * St.

#[global] Instance M_ret {St} : MRet (M St) := fun _ a s => (Ok a, s).
#[global] Instance M_bind {St} : MBind (M St) := fun _ _ f m s =>
  match m s with
  | (Ok a, s') => f a s'
  | (Panic v, s') => (Panic v, s')
  end.

Definition panic {St A} (v : text) : M St A := fun s => (Panic v, s).

(** Pointers are addresses into a store of objects; an address outside the
    store stands for nil. *)
Definition loc := positive.

(** A rule body without effects, as a function on any world. *)
Definition pure_rule {W} (body : list any → outcome (option error))
  : list any → M W (option error) := fun param w => (body param, w).

Definition dquote : string := String "034"%char EmptyString.

(** ** The engine with an explicit [Validator] object *)

Module Instantiable.
Section WithWorld.
(** What a rule can read and write besides the operands it is handed: the
    world outside the engine. *)
Variable W : Type.

Record ValidationContext := mk_ctx {
  validator : loc;             (* *Validator *)
  err : option error
}.

(** The validation contexts in memory, and the world of the closures. *)
Record State := mk_state {
  ctxs : gmap loc ValidationContext;
  world : W
}.

Definition RuleFunc := list any → M W (option error).

(** The [rules] table of every [Validator] in memory: what a handler
    reaches through [ctx.validator.rules].  A Go map is nil ([None]) or
    allocated. *)
Definition RuleTables := gmap loc (option (gmap string RuleFunc)).

Definition HandlerFunc := RuleTables → any → loc → M State unit.

Record Validator := mk_validator {
  rules : option (gmap string RuleFunc);
  typeHandlers : option (gmap rtype HandlerFunc)
}.

Definition rule_tables (V : gmap loc Validator) : RuleTables := rules <$> V.

Definition RegisterRule (v : loc) (ruleName : string) (fnc : RuleFunc)
  : M (gmap loc Validator) unit := fun V =>
  match V !! v with
  | None => (Panic nil_dereference, V)
  | Some val =>
    match rules val with
    | None => (Panic nil_map_assignment, V)
    | Some m =>
      (Ok (), <[v := mk_validator (Some (<[ruleName := fnc]> m)) (typeHandlers val)]> V)
    end
  end.

(** [RegisterType[T]]: the handler is stored behind the assertion [a.(T)]. *)
Definition RegisterType (T : rtype) (v : loc) (handler : HandlerFunc)
  : M (gmap loc Validator) unit := fun V =>
  let wrapped : HandlerFunc := fun R a cc =>
    if decide (TypeOf a = Some T) then handler R a cc
    else panic (interface_conversion (TypeOf a) T) in
  match V !! v with
  | None => (Panic nil_dereference, V)
  | Some val =>
    match typeHandlers val with
    | None => (Panic nil_map_assignment, V)
    | Some m =>
      (Ok (), <[v := mk_validator (rules val) (Some (<[T := wrapped]> m))]> V)
    end
  end.

Definition load (ctx : loc) : M State ValidationContext := fun σ =>
  match ctxs σ !! ctx with
  | Some c => (Ok c, σ)
  | None => (Panic nil_dereference, σ)
  end.

(** The assignment [ctx.err = e]. *)
Definition set_err (ctx : loc) (e : option error) : M State unit := fun σ =>
  match ctxs σ !! ctx with
  | Some c => (Ok (), mk_state (<[ctx := mk_ctx (validator c) e]> (ctxs σ)) (world σ))
  | None => (Panic nil_dereference, σ)
  end.

(** Running a function that reads and writes the world only, as a rule
    does: [Check] hands it the operands of the call and nothing of the
    engine. *)
Definition call {A} (f : M W A) : M State A := fun σ =>
  let '(r, w) := f (world σ) in (r, mk_state (ctxs σ) w).

Definition Message (ctx : loc) (message : string) : M State loc :=
  c ← load ctx;
  _ ← match err c with
      | Some _ => set_err ctx (Some (errors_New message))
      | None => mret ()
      end;
  mret ctx.

Definition Check (R : RuleTables) (ctx : loc) (handlerName : string)
    (params : list any) : M State loc :=
  c ← load ctx;
  match err c with
  | Some _ => mret ctx
  | None =>
    match R !! validator c with
    | None => panic nil_dereference
    | Some table =>
      match table ≫= (.!! handlerName) with
      | None =>
        panic (Lit ("Rule " +:+ handlerName
                    +:+ " has not been registered to specified validator"))
      | Some rule =>
        e ← call (rule params);
        _ ← set_err ctx e;
        mret ctx
      end
    end
  end.

(** [fnc] takes no argument: it is a closure written where the context is
    in scope, so it runs on the whole state and may itself write contexts
    or make new ones. *)
Definition Must (ctx : loc) (fnc : M State bool) : M State loc :=
  c ← load ctx;
  match err c with
  | Some _ => mret ctx
  | None =>
    b ← fnc;
    _ ← (if negb b then set_err ctx (Some (errors_New "rule failed")) else mret ());
    mret ctx
  end.

(** [&Validator{}]: a new object with both tables nil. *)
Definition alloc_Validator : M (gmap loc Validator) loc := fun V =>
  let v := fresh (dom V) in (Ok v, <[v := mk_validator None None]> V).

Definition New : M (gmap loc Validator) loc :=
  validator ← alloc_Validator;
  _ ← RegisterRule validator "notEmpty" (pure_rule notEmpty_New);
  _ ← RegisterRule validator "greaterThan" (pure_rule greaterThan);
  _ ← RegisterRule validator "lessThan" (pure_rule lessThan);
  _ ← RegisterRule validator "isEmail" (pure_rule isEmail);
  mret validator.
End WithWorld.

Arguments mk_state {W} ctxs world.
Arguments ctxs {W} _.
Arguments world {W} _.
Arguments mk_validator {W} rules typeHandlers.
Arguments rules {W} _.
Arguments typeHandlers {W} _.
Arguments rule_tables {W} V.
Arguments RegisterRule {W} v ruleName fnc.
Arguments RegisterType {W} T v handler.
Arguments load {W} ctx.
Arguments set_err {W} ctx e.
Arguments call {W A} f.
Arguments Message {W} ctx message.
Arguments Check {W} R ctx handlerName params.
Arguments Must {W} ctx fnc.
Arguments alloc_Validator {W}.
Arguments New {W}.
End Instantiable.

(** ** The engine with package-level tables *)

Module Singleton.
Section WithWorld.
Variable W : Type.

Record ValidationContext := mk_ctx { err : option error }.

Record State := mk_state {
  ctxs : gmap loc ValidationContext;
  world : W
}.

Definition RuleFunc := list any → M W (option error).

(** [func(a any, ctx *ValidationContext)], run against the package's
    [rules] as they are at the time of the call. *)
Definition HandlerFunc := gmap string RuleFunc → any → loc → M State unit.

(** The package-level variables; both tables are made at start-up and
    never reassigned. *)
Record Globals := mk_globals {
  rules : gmap string RuleFunc;
  typeHandlers : gmap rtype HandlerFunc
}.

(** [make(map[..]..)] twice. *)
Definition start : Globals := mk_globals ∅ ∅.

Definition RegisterRule (ruleName : string) (fnc : RuleFunc) : M Globals unit :=
  fun g => (Ok (), mk_globals (<[ruleName := fnc]> (rules g)) (typeHandlers g)).

Definition RegisterType (T : rtype) (handler : HandlerFunc) : M Globals unit :=
  fun g =>
  let wrapped : HandlerFunc := fun R a ctx =>
    if decide (TypeOf a = Some T) then handler R a ctx
    else panic (interface_conversion (TypeOf a) T) in
  (Ok (), mk_globals (rules g) (<[T := wrapped]> (typeHandlers g))).

Definition load (ctx : loc) : M State ValidationContext := fun σ =>
  match ctxs σ !! ctx with
  | Some c => (Ok c, σ)
  | None => (Panic nil_dereference, σ)
  end.

(** The assignment [ctx.err = e]. *)
Definition set_err (ctx : loc) (e : option error) : M State unit := fun σ =>
  match ctxs σ !! ctx with
  | Some _ => (Ok (), mk_state (<[ctx := mk_ctx e]> (ctxs σ)) (world σ))
  | None => (Panic nil_dereference, σ)
  end.

(** [ctx := ValidationContext{}] with its address taken. *)
Definition alloc_ctx : M State loc := fun σ =>
  let ctx := fresh (dom (ctxs σ)) in
  (Ok ctx, mk_state (<[ctx := mk_ctx None]> (ctxs σ)) (world σ)).

(** Running a function that reads and writes the world only, as a rule
    does: [Check] hands it the operands of the call and nothing of the
    engine. *)
Definition call {A} (f : M W A) : M State A := fun σ =>
  let '(r, w) := f (world σ) in (r, mk_state (ctxs σ) w).

Definition ValidateStruct (g : Globals) (s : any) : M State (option error) :=
  match TypeOf s with
  | None => panic nil_dereference      (* [typ.Name()] on the nil type *)
  | Some typ =>
    match typeHandlers g !! typ with
    | None =>
      panic (Lit ("Type " +:+ dquote +:+ type_name typ +:+ dquote
                  +:+ " Hasn't been registered with RegisterType"))
    | Some handler =>
      ctx ← alloc_ctx;
      _ ← handler (rules g) s ctx;
      c ← load ctx;
      mret (err c)
    end
  end.

Definition Message (ctx : loc) (message : string) : M State loc :=
  c ← load ctx;
  _ ← match err c with
      | Some _ => set_err ctx (Some (errors_New message))
      | None => mret ()
      end;
  mret ctx.

Definition Check (R : gmap string RuleFunc) (ctx : loc) (handlerName : string)
    (params : list any) : M State loc :=
  c ← load ctx;
  match err c with
  | Some _ => mret ctx
  | None =>
    match R !! handlerName with
    | None => panic (Lit ("Rule " +:+ handlerName +:+ " has not been registered"))
    | Some rule =>
      e ← call (rule params);
      _ ← set_err ctx e;
      mret ctx
    end
  end.

(** [fnc] takes no argument: it is a closure written where the context is
    in scope, so it runs on the whole state; it may write contexts, this
    one among them, and make new ones (by a nested [ValidateStruct]). *)
Definition MustErr (ctx : loc) (fnc : M State (option error)) : M State loc :=
  c ← load ctx;
  match err c with
  | Some _ => mret ctx
  | None =>
    e ← fnc;
    _ ← set_err ctx e;
    mret ctx
  end.

Definition Must (ctx : loc) (fnc : M State bool) : M State loc :=
  c ← load ctx;
  match err c with
  | Some _ => mret ctx
  | None =>
    b ← fnc;
    _ ← (if negb b then set_err ctx (Some (errors_New "rule failed")) else mret ());
    mret ctx
  end.

Definition Init : M Globals unit :=
  _ ← RegisterRule "notEmpty" (pure_rule notEmpty_Init);
  _ ← RegisterRule "greaterThan" (pure_rule greaterThan);
  RegisterRule "lessThan" (pure_rule lessThan).

(** *** Handlers written as one chain of calls on the context

    [ctx.Check(..).Message(..).Must(..)...]: every call is made on the
    pointer the call before it returned.  The predicates of the chains
    considered here test the world and leave the contexts alone. *)
Inductive chain_call :=
  | DoCheck (handlerName : string) (params : list any)
  | DoMust (fnc : M W bool)
  | DoMustErr (fnc : M W (option error))
  | DoMessage (message : string).

Definition run_call (R : gmap string RuleFunc) (ctx : loc) (c : chain_call)
  : M State loc :=
  match c with
  | DoCheck handlerName params => Check R ctx handlerName params
  | DoMust fnc => Must ctx (call fnc)
  | DoMustErr fnc => MustErr ctx (call fnc)
  | DoMessage message => Message ctx message
  end.

Fixpoint run_chain (R : gmap string RuleFunc) (ctx : loc) (cs : list chain_call)
  : M State loc :=
  match cs with
  | [] => mret ctx
  | c :: rest => ctx' ← run_call R ctx c; run_chain R ctx' rest
  end.

Definition chain_handler (body : any → list chain_call) : HandlerFunc :=
  fun R a ctx => _ ← run_chain R ctx (body a); mret ().

(** *** The result of a chain, as the specification words it

    The checks are evaluated in order up to the first one that fails;
    that failure is the result, under the text of the last [Message]
    that follows it, if any; no later check is evaluated.  The result is
    nil when no check fails. *)
Definition verdict (R : gmap string RuleFunc) (c : chain_call)
  : option (M W (option error)) :=
  match c with
  | DoCheck handlerName params =>
    Some (match R !! handlerName with
          | None => panic (Lit ("Rule " +:+ handlerName +:+ " has not been registered"))
          | Some rule => rule params
          end)
  | DoMust fnc =>
    Some (fun w =>
            match fnc w with
            | (Ok b, w') => (Ok (if b then None else Some (errors_New "rule failed")), w')
            | (Panic v, w') => (Panic v, w')
            end)
  | DoMustErr fnc => Some fnc
  | DoMessage _ => None
  end.

Fixpoint last_message (cs : list chain_call) : option string :=
  match cs with
  | [] => None
  | c :: rest =>
    match last_message rest, c with
    | Some m, _ => Some m
    | None, DoMessage m => Some m
    | None, _ => None
    end
  end.

Definition reworded (e : error) (later : list chain_call) : error :=
  match last_message later with
  | Some m => errors_New m
  | None => e
  end.

Fixpoint first_failure (R : gmap string RuleFunc) (cs : list chain_call)
  : M W (option error) :=
  match cs with
  | [] => mret None
  | c :: rest =>
    match verdict R c with
    | None => first_failure R rest
    | Some v =>
      e ← v;
      match e with
      | None => first_failure R rest
      | Some e1 => mret (Some (reworded e1 rest))
      end
    end
  end.
End WithWorld.

Arguments mk_state {W} ctxs world.
Arguments ctxs {W} _.
Arguments world {W} _.
Arguments mk_globals {W} rules typeHandlers.
Arguments rules {W} _.
Arguments typeHandlers {W} _.
Arguments start {W}.
Arguments RegisterRule {W} ruleName fnc.
Arguments RegisterType {W} T handler.
Arguments load {W} ctx.
Arguments set_err {W} ctx e.
Arguments alloc_ctx {W}.
Arguments call {W A} f.
Arguments ValidateStruct {W} g s.
Arguments Message {W} ctx message.
Arguments Check {W} R ctx handlerName params.
Arguments MustErr {W} ctx fnc.
Arguments Must {W} ctx fnc.
Arguments Init {W}.
Arguments DoCheck {W} handlerName params.
Arguments DoMust {W} fnc.
Arguments DoMustErr {W} fnc.
Arguments DoMessage {W} message.
Arguments run_call {W} R ctx c.
Arguments run_chain {W} R ctx cs.
Arguments chain_handler {W} body.
Arguments verdict {W} R c.
Arguments last_message {W} cs.
Arguments reworded {W} e later.
Arguments first_failure {W} R cs.
End Singleton.

(** ** What [isEmail] is specified to accept *)

(** The conditions the scan enforces, on the runes of the string: exactly
    one [@], a character before it, a dot after it, a character other than a
    dot after it, and neither space nor comma anywhere. *)
Definition well_formed_email (rs : list Z) : Prop :=
  ∃ before after : list Z,
    rs = (before ++ rune "@" :: after)%list
    ∧ (rune "@" ∉ before) ∧ (rune "@" ∉ after)
    ∧ before ≠ []
    ∧ (rune "." ∈ after)
    ∧ (∃ r, (r ∈ after) ∧ r ≠ rune ".")
    ∧ (rune " " ∉ rs) ∧ (rune "," ∉ rs).

(** The same with the last condition but two as the specification words it:
    a character other than a dot after the dot (after some dot that follows
    the [@]). *)
Definition well_formed_email_as_specified (rs : list Z) : Prop :=
  ∃ before after : list Z,
    rs = (before ++ rune "@" :: after)%list
    ∧ (rune "@" ∉ before) ∧ (rune "@" ∉ after)
    ∧ before ≠ []
    ∧ (∃ (host tail : list Z) (r : Z),
          after = (host ++ rune "." :: tail)%list ∧ (r ∈ tail) ∧ r ≠ rune ".")
    ∧ (rune " " ∉ rs) ∧ (rune "," ∉ rs).

(** The two tests of the scan on a rune that follows the [@]. *)
Definition is_sep (r : Z) : bool := (r =? rune " ") || (r =? rune ",").
Definition is_text (r : Z) : bool := negb (r =? rune "@") && negb (r =? rune ".").

Definition invalid_email : error :=
  errors_New "Email addresses must be valid, working, and must have no commas or spaces".

(** ** Operands of the comparison rules *)

(** [ops] are operands the value switch supports, of magnitudes [vs]. *)
Definition magnitudes (ops : list any) (vs : list float64) : Prop :=
  Forall2 (fun a v => reduce false a = Ok (Some v)) ops vs.

Definition not_greater (position : Z) (val comparer : float64) : error :=
  fmt_Errorf "greaterThan: parameter at position %d (= %v) is not greater than %v"
    [ArgInt position; ArgFloat val; ArgFloat comparer].

Definition not_less (position : Z) (val comparer : float64) : error :=
  fmt_Errorf "lessThan: parameter at position %d (= %v) is not less than %v"
    [ArgInt position; ArgFloat val; ArgFloat comparer].

Definition int64_range (n : Z) : Prop := - 2 ^ 63 <= n < 2 ^ 63.


(** ** Worked inputs

    The end-to-end example of the specification: a [Person] with a name and
    an age, checked by [notEmpty] on the name and [greaterThan] on the age,
    where the world counts the calls of [greaterThan]. *)

Definition person_type : rtype := mk_rtype "main.Person" "Person".

Definition person (name : string) (age : Z) : any :=
  VStruct person_type [("name", str name); ("age", int age)].

Fixpoint lookup_field (name : string) (fields : list (string * any)) : any :=
  match fields with
  | [] => Nil
  | (n, v) :: rest => if decide (n = name) then v else lookup_field name rest
  end.

(** The selector [s.name]. *)
Definition field (name : string) (a : any) : any :=
  match a with
  | VStruct _ fields => lookup_field name fields
  | _ => Nil
  end.

Definition counted (body : list any → outcome (option error))
  : Singleton.RuleFunc nat := fun param calls => (body param, S calls).

Definition person_checks (s : any) : list (Singleton.chain_call nat) :=
  [ Singleton.DoCheck "notEmpty" [field "name" s];
    Singleton.DoMessage "name required";
    Singleton.DoCheck "greaterThan" [int 0; field "age" s];
    Singleton.DoMessage "age must be positive" ].

(** The package after [Init], with [greaterThan] replaced by its counting
    copy. *)
Definition counting_rules : Singleton.Globals nat :=
  (Singleton.RegisterRule "greaterThan" (counted greaterThan)
     (Singleton.Init Singleton.start).2).2.

Definition no_contexts : Singleton.State nat := Singleton.mk_state ∅ 0%nat.

(** The package once the handler of [Person] is registered. *)
Definition person_registered : Singleton.Globals nat :=
  (Singleton.RegisterType person_type (Singleton.chain_handler person_checks)
     counting_rules).2.

(** A context that has failed, in either engine, and one that has not. *)
Definition failed_Instantiable : Instantiable.State nat :=
  Instantiable.mk_state
    {[ 1%positive := Instantiable.mk_ctx 2%positive (Some (errors_New "name required")) ]}
    0%nat.

Definition failed_Singleton : Singleton.State nat :=
  Singleton.mk_state {[ 1%positive := Singleton.mk_ctx (Some (errors_New "name required")) ]}
    0%nat.

Definition fresh_Singleton : Singleton.State nat :=
  Singleton.mk_state {[ 1%positive := Singleton.mk_ctx None ]} 0%nat.

Definition fresh_Instantiable : Instantiable.State nat :=
  Instantiable.mk_state {[ 1%positive := Instantiable.mk_ctx 2%positive None ]} 0%nat.

(** A closure that counts its call and panics. *)
Definition explode {A} : M nat A := fun calls => (Panic (Lit "called"), S calls).

(** ** Vocabulary for further properties of the rules *)

Definition unsupported_comparer (rule : string) (c : any) : error :=
  fmt_Errorf (rule +:+ ": unsupported type %T for comparer") [ArgType (TypeOf c)].

Definition unsupported_operand (rule : string) (a : any) (position : Z) : error :=
  fmt_Errorf (rule +:+ ": unsupported type %T at position %d")
    [ArgType (TypeOf a); ArgInt position].

(** A string that [strings.TrimSpace] empties. *)
Definition blank (s : string) : bool := len (TrimSpace s) =? 0.

(** An operand with something in it, as the rule of [New] measures it. *)
Definition has_content (p : any) : bool :=
  match p with
  | VString _ s => negb (blank s)
  | VArray _ xs | VSlice _ xs => negb (bool_decide (xs = []))
  | VMap _ kvs => negb (bool_decide (kvs = []))
  | _ => false
  end.

(** An operand of kind String whose type is not the predeclared [string]. *)
Definition named_string (p : any) : bool :=
  match p with
  | VString T _ => negb (bool_decide (T = string_type))
  | _ => false
  end.

(** ** Vocabulary for further properties of the engines *)

(** A predicate read as a function that returns an error: nil when it
    holds, the error of [Must] when it does not. *)
Definition failing_as_error {St} (fnc : M St bool) : M St (option error) :=
  fun s =>
    match fnc s with
    | (Ok b, s') => (Ok (if b then None else Some (errors_New "rule failed")), s')
    | (Panic v, s') => (Panic v, s')
    end.

(** A predicate that runs a check on the context it is written for and
    holds whatever the check found:
    [func() bool { ctx.Check("notEmpty", ""); return true }]. *)
Definition checks_its_context {W} (R : gmap string (Singleton.RuleFunc W)) (ctx : loc)
  : M (Singleton.State W) bool :=
  _ ← Singleton.Check R ctx "notEmpty" [str ""]; mret true.

(** The state the function given to [Must] or [MustErr] leaves: the engine
    runs it, once and on the state of the call, when the context has no
    error, and not at all otherwise. *)
Definition Singleton_after {W A} (ctx : loc) (fnc : M (Singleton.State W) A)
    (σ : Singleton.State W) : Singleton.State W :=
  match Singleton.ctxs σ !! ctx with
  | Some (Singleton.mk_ctx None) => (fnc σ).2
  | _ => σ
  end.

Definition Instantiable_after {W A} (ctx : loc) (fnc : M (Instantiable.State W) A)
    (σ : Instantiable.State W) : Instantiable.State W :=
  match Instantiable.ctxs σ !! ctx with
  | Some (Instantiable.mk_ctx _ None) => (fnc σ).2
  | _ => σ
  end.

(** The contexts of the engine with a [Validator], without their pointer to
    it: the contexts of the engine with package-level tables. *)
Definition forget_validator {W} (σ : Instantiable.State W) : Singleton.State W :=
  Singleton.mk_state
    ((fun c => Singleton.mk_ctx (Instantiable.err c)) <$> Instantiable.ctxs σ)
    (Instantiable.world σ).

Definition forget_validator_result {W A} (r : outcome A * Instantiable.State W)
  : outcome A * Singleton.State W := (r.1, forget_validator r.2).

(** A function on the states of the engine with a [Validator] that does,
    seen without the pointers to the [Validator], what [f2] does on the
    states of the engine with package-level tables. *)
Definition same_function {W A} (f1 : M (Instantiable.State W) A)
    (f2 : M (Singleton.State W) A) : Prop :=
  ∀ σ, forget_validator_result (f1 σ) = f2 (forget_validator σ).

(** Of the objects in memory, only the one at [ctx] may differ between [m]
    and [m']; none is added and none removed. *)
Definition only_touches {A} (ctx : loc) (m m' : gmap loc A) : Prop :=
  dom m' = dom m ∧ ∀ l, l ≠ ctx → m' !! l = m !! l.

(** * Properties *)

(** ** The scan of [isEmail] *)

Ltac bool_cases :=
  repeat match goal with
         | |- context [existsb ?p ?l] => generalize (existsb p l); intro
         end;
  repeat match goal with b : bool |- _ => destruct b end;
  reflexivity.

Lemma rune_at : rune "@" = 64. Proof. reflexivity. Qed.
Lemma rune_dot : rune "." = 46. Proof. reflexivity. Qed.
Lemma rune_space : rune " " = 32. Proof. reflexivity. Qed.
Lemma rune_comma : rune "," = 44. Proof. reflexivity. Qed.

Lemma scan_rune_before (r : Z) (sp tb : bool) :
  r ≠ rune "@" →
  scan_rune (mk_scan false sp tb false false false) r
  = mk_scan false (sp || is_sep r) true false false false.
Proof.
  intros Hr. unfold scan_rune, is_sep.
  rewrite rune_at in *. rewrite rune_space, rune_comma.
  destruct (Z.eqb_spec r 64); [done|].
  by destruct (Z.eqb_spec r 32), (Z.eqb_spec r 44), sp.
Qed.

Lemma scan_rune_after (r : Z) (sp tb ta d o : bool) :
  scan_rune (mk_scan true sp tb ta d o) r
  = mk_scan true (sp || is_sep r) tb (ta || is_text r)
      (d || (rune "." =? r)) (o || (rune "@" =? r)).
Proof.
  unfold scan_rune, is_sep, is_text.
  rewrite rune_at, rune_dot, rune_space, rune_comma.
  rewrite (Z.eqb_sym 46 r), (Z.eqb_sym 64 r).
  destruct (Z.eqb_spec r 64), (Z.eqb_spec r 46), (Z.eqb_spec r 32),
    (Z.eqb_spec r 44); try lia; by destruct sp, ta, d, o.
Qed.

Lemma scan_before (before : list Z) :
  rune "@" ∉ before →
  ∀ sp tb,
    fold_left scan_rune before (mk_scan false sp tb false false false)
    = mk_scan false (sp || existsb is_sep before)
        (tb || bool_decide (before ≠ [])) false false false.
Proof.
  induction before as [|r before IH]; intros Hno sp tb; cbn [fold_left existsb].
  - by rewrite !orb_false_r.
  - apply not_elem_of_cons in Hno as [Hr Hno].
    rewrite scan_rune_before, (IH Hno) by done.
    rewrite (bool_decide_eq_true_2 (r :: before ≠ [])) by done.
    f_equal; bool_cases.
Qed.

Lemma scan_after (after : list Z) :
  ∀ sp tb ta d o,
    fold_left scan_rune after (mk_scan true sp tb ta d o)
    = mk_scan true (sp || existsb is_sep after) tb (ta || existsb is_text after)
        (d || existsb (Z.eqb (rune ".")) after)
        (o || existsb (Z.eqb (rune "@")) after).
Proof.
  induction after as [|r after IH]; intros sp tb ta d o; cbn [fold_left existsb].
  - by rewrite !orb_false_r.
  - rewrite scan_rune_after, IH. by rewrite !orb_assoc.
Qed.

Lemma scan_split (before after : list Z) :
  rune "@" ∉ before →
  fold_left scan_rune (before ++ rune "@" :: after) scan_start
  = mk_scan true (existsb is_sep before || existsb is_sep after)
      (bool_decide (before ≠ [])) (existsb is_text after)
      (existsb (Z.eqb (rune ".")) after) (existsb (Z.eqb (rune "@")) after).
Proof.
  intros Hno. rewrite fold_left_app. unfold scan_start.
  rewrite (scan_before before Hno). cbn [fold_left orb].
  replace (scan_rune _ (rune "@"))
    with (mk_scan true (existsb is_sep before) (bool_decide (before ≠ []))
            false false false).
  - by rewrite scan_after.
  - unfold scan_rune. rewrite Z.eqb_refl. reflexivity.
Qed.

Lemma existsb_elem_of (p : Z → bool) (l : list Z) :
  existsb p l = true ↔ ∃ r, r ∈ l ∧ p r = true.
Proof.
  rewrite existsb_exists. split; intros (r & Hr & Hp); exists r;
    by rewrite ?list_elem_of_In in *.
Qed.

Lemma existsb_eqb (c : Z) (l : list Z) : existsb (Z.eqb c) l = true ↔ c ∈ l.
Proof.
  rewrite existsb_elem_of. split.
  - intros (r & Hr & ->%Z.eqb_eq). done.
  - intros Hc. exists c. by rewrite Z.eqb_refl.
Qed.

Lemma existsb_false_eqb (c : Z) (l : list Z) : existsb (Z.eqb c) l = false ↔ c ∉ l.
Proof. rewrite <- existsb_eqb. by destruct (existsb _ l). Qed.

Lemma no_sep (l : list Z) :
  existsb is_sep l = false ↔ (rune " " ∉ l) ∧ (rune "," ∉ l).
Proof.
  induction l as [|r l IH]; simpl.
  - split; [intros _; split; apply not_elem_of_nil | done].
  - rewrite orb_false_iff, IH, !not_elem_of_cons. unfold is_sep.
    rewrite orb_false_iff, !Z.eqb_neq. intuition congruence.
Qed.

Lemma scan_accepts (rs : list Z) :
  scan_rejects (fold_left scan_rune rs scan_start) = false ↔ well_formed_email rs.
Proof.
  split.
  - intros Hacc. destruct (decide (rune "@" ∈ rs)) as [Hin|Hout].
    + apply list_elem_of_split_l in Hin as (before & after & -> & Hno).
      rewrite (scan_split _ _ Hno) in Hacc. unfold scan_rejects in Hacc. simpl in Hacc.
      rewrite !orb_false_iff, !negb_false_iff in Hacc.
      destruct Hacc as [[[[[[[Hs1 Hc1]%no_sep [Hs2 Hc2]%no_sep] _] Htext] Hbefore] Hdot] Hother].
      apply existsb_false_eqb in Hother. apply existsb_eqb in Hdot.
      apply bool_decide_eq_true in Hbefore.
      apply existsb_elem_of in Htext as (r & Hr & Htext).
      exists before, after. repeat split; try done.
      * exists r. split; [done|]. unfold is_text in Htext.
        apply andb_true_iff in Htext as [_ Hd%negb_true_iff%Z.eqb_neq]. done.
      * rewrite not_elem_of_app, not_elem_of_cons. by rewrite rune_space, rune_at in *.
      * rewrite not_elem_of_app, not_elem_of_cons. by rewrite rune_comma, rune_at in *.
    + unfold scan_start in Hacc. rewrite (scan_before rs Hout) in Hacc.
      unfold scan_rejects in Hacc. cbn in Hacc.
      by destruct (existsb is_sep rs).
  - intros (before & after & -> & Hno1 & Hno2 & Hbefore & Hdot & (r & Hr & Hrdot) & Hs & Hc).
    rewrite (scan_split _ _ Hno1). unfold scan_rejects. simpl.
    rewrite not_elem_of_app, not_elem_of_cons in Hs, Hc.
    destruct Hs as (Hs1 & _ & Hs2), Hc as (Hc1 & _ & Hc2).
    rewrite (proj2 (no_sep before)), (proj2 (no_sep after)) by done.
    rewrite (proj2 (existsb_eqb _ after) Hdot).
    rewrite (proj2 (existsb_false_eqb _ after) Hno2).
    rewrite bool_decide_eq_true_2 by done.
    assert (existsb is_text after = true) as ->; [|done].
    apply existsb_elem_of. exists r. split; [done|]. unfold is_text.
    rewrite andb_true_iff, !negb_true_iff, !Z.eqb_neq. split; [|done].
    intros ->. done.
Qed.

Lemma isEmail_str (s : string) :
  isEmail [str s]
  = if scan_rejects (fold_left scan_rune (runes s) scan_start)
    then Ok (Some invalid_email) else Ok None.
Proof. reflexivity. Qed.

(** C3, as amended: [isEmail] accepts a string exactly when it holds one
    [@], a character before it, a dot after it, a character other than a dot
    after the [@] (not necessarily after the dot), and neither space nor
    comma; every other string gets the one generic error.  So "a@b.c"
    passes, "ab.c", "a@bc" and "a @b.c" fail, and "a@b." passes. *)
Theorem isEmail_accepts_exactly :
  (∀ s, isEmail [str s] = Ok None ↔ well_formed_email (runes s))
  ∧ (∀ s, isEmail [str s] = Ok None ∨ isEmail [str s] = Ok (Some invalid_email))
  ∧ (∀ s rest, isEmail (str s :: rest) = isEmail [str s])
  ∧ isEmail [str "a@b.c"] = Ok None
  ∧ isEmail [str "ab.c"] = Ok (Some invalid_email)
  ∧ isEmail [str "a@bc"] = Ok (Some invalid_email)
  ∧ isEmail [str "a @b.c"] = Ok (Some invalid_email)
  ∧ isEmail [str "a@b."] = Ok None.
Proof.
  split; [|split; [|split; [|by repeat split]]].
  - intros s. rewrite isEmail_str, <- scan_accepts.
    by destruct (scan_rejects _).
  - intros s. rewrite isEmail_str. destruct (scan_rejects _); auto.
  - reflexivity.
Qed.

(** C3, as stated, fails: "a@b." has nothing after its dot, and [isEmail]
    returns nil for it. *)
Lemma isEmail_trailing_dot_passes :
  isEmail [str "a@b."] = Ok None
  ∧ ¬ well_formed_email_as_specified (runes "a@b.").
Proof.
  split; [reflexivity|].
  intros (before & after & Heq & Hno & _ & _ & (host & tail & r & Hafter & Hr & _) & _).
  change (runes "a@b.") with [97; 64; 98; 46] in Heq.
  rewrite rune_at in *. rewrite rune_dot in *.
  destruct before as [|b0 [|b1 before]]; simplify_eq/=.
  - destruct host as [|h0 [|h1 host]]; simplify_eq/=.
    + by apply elem_of_nil in Hr.
    + by destruct host.
  - apply Hno. apply elem_of_cons. right. apply elem_of_cons. by left.
Qed.

(** ** The two [notEmpty] rules *)

Lemma notEmpty_Init_skips (p : any) (rest : list any) :
  assert_string p = None → notEmpty_Init (p :: rest) = notEmpty_Init rest.
Proof. intros Hp. simpl. by rewrite Hp. Qed.

Lemma assert_string_str (s : string) : assert_string (str s) = Some s.
Proof. reflexivity. Qed.

Lemma notEmpty_New_str (s : string) (rest : list any) :
  notEmpty_New (str s :: rest)
  = if len (TrimSpace s) =? 0
    then Ok (Some (errors_New "required rule failed")) else notEmpty_New rest.
Proof. reflexivity. Qed.

Lemma notEmpty_Init_str (s : string) (rest : list any) :
  notEmpty_Init (str s :: rest)
  = if len (TrimSpace s) =? 0
    then Ok (Some (errors_New "rule required failed")) else notEmpty_Init rest.
Proof. reflexivity. Qed.

Lemma notEmpty_New_strings (ss : list string) :
  notEmpty_New (str <$> ss)
  = if existsb (fun s => len (TrimSpace s) =? 0) ss
    then Ok (Some (errors_New "required rule failed")) else Ok None.
Proof.
  induction ss as [|s ss IH]; [done|].
  rewrite fmap_cons, notEmpty_New_str, IH. cbn [existsb].
  by destruct (len (TrimSpace s) =? 0).
Qed.

Lemma notEmpty_Init_strings (ss : list string) :
  notEmpty_Init (str <$> ss)
  = if existsb (fun s => len (TrimSpace s) =? 0) ss
    then Ok (Some (errors_New "rule required failed")) else Ok None.
Proof.
  induction ss as [|s ss IH]; [done|].
  rewrite fmap_cons, notEmpty_Init_str, IH. cbn [existsb].
  by destruct (len (TrimSpace s) =? 0).
Qed.

(** C4, as amended: the rule of [New] fails "", a string of spaces, an
    empty slice and an empty map, and passes "a" and a one-element slice.
    The rule of [Init] fails "" and a string of spaces and passes "a", but
    skips every operand that is not a plain string, slices and maps
    included: an empty slice and an empty map pass.  On plain strings the
    two rules agree; an operand of a kind without a length fails the rule of
    [New] and is skipped by the rule of [Init]. *)
Theorem notEmpty_New_and_Init :
  notEmpty_New [str ""] = Ok (Some (errors_New "required rule failed"))
  ∧ notEmpty_New [str "   "] = Ok (Some (errors_New "required rule failed"))
  ∧ notEmpty_New [ints []] = Ok (Some (errors_New "required rule failed"))
  ∧ notEmpty_New [no_entries] = Ok (Some (errors_New "required rule failed"))
  ∧ notEmpty_New [str "a"] = Ok None
  ∧ notEmpty_New [ints [1]] = Ok None
  ∧ notEmpty_Init [str ""] = Ok (Some (errors_New "rule required failed"))
  ∧ notEmpty_Init [str "   "] = Ok (Some (errors_New "rule required failed"))
  ∧ notEmpty_Init [str "a"] = Ok None
  ∧ notEmpty_Init [ints [1]] = Ok None
  ∧ notEmpty_Init [ints []] = Ok None
  ∧ notEmpty_Init [no_entries] = Ok None
  ∧ (∀ p rest, assert_string p = None →
       notEmpty_Init (p :: rest) = notEmpty_Init rest)
  ∧ (∀ ss, notEmpty_New (str <$> ss) = Ok None ↔ notEmpty_Init (str <$> ss) = Ok None)
  ∧ (∀ p rest,
       Kind_of p ≠ reflect.String → Kind_of p ≠ reflect.Array →
       Kind_of p ≠ reflect.Slice → Kind_of p ≠ reflect.Map →
       notEmpty_New (p :: rest) = Ok (Some (errors_New "required rule failed"))
       ∧ notEmpty_Init (p :: rest) = notEmpty_Init rest).
Proof.
  repeat (split; [reflexivity|]).
  split; [apply notEmpty_Init_skips|]. split.
  - intros ss. rewrite notEmpty_New_strings, notEmpty_Init_strings.
    by destruct (existsb _ ss).
  - intros p rest Hs Ha Hl Hm.
    destruct p as [|T s|T [] n|T [] n|T [] f|T xs|T xs|T kvs|T fs|T []]; done.
Qed.

(** C4, as stated, fails: the rule of [Init] returns nil for an empty slice
    and for an empty map. *)
Lemma notEmpty_Init_passes_empty_slice :
  notEmpty_Init [ints []] = Ok None ∧ notEmpty_Init [no_entries] = Ok None.
Proof. split; reflexivity. Qed.

(** ** The comparison rules *)

Lemma SFcompare_swap (x y : float64) :
  SFcompare y x = CompOpp <$> SFcompare x y.
Proof.
  destruct x as [sx|sx| |sx mx ex], y as [sy|sy| |sy my ey]; simpl;
    try done; try (by destruct sx); try (by destruct sy);
    try (by destruct sx, sy).
  pose proof (Pos.compare_cont_antisym mx my Eq) as Hm. simpl in Hm.
  destruct sx, sy; simpl; try done; rewrite (Z.compare_antisym ex ey);
    destruct (ex ?= ey); simpl; try done; rewrite <- Hm;
    by destruct (Pos.compare_cont Eq mx my).
Qed.

Lemma SFcompare_defined (x y : float64) :
  is_nan x = false → is_nan y = false → is_Some (SFcompare x y).
Proof. destruct x, y; simpl; try done; eauto. Qed.

Lemma f64_le_not_gt (x y : float64) :
  is_nan x = false → is_nan y = false → f64_le x y = negb (f64_gt x y).
Proof.
  intros Hx Hy. unfold f64_le, f64_gt, SFleb, SFltb. rewrite (SFcompare_swap x y).
  destruct (SFcompare_defined x y Hx Hy) as [c ->]. by destruct c.
Qed.

Lemma f64_ge_not_lt (x y : float64) :
  is_nan x = false → is_nan y = false → f64_ge x y = negb (f64_lt x y).
Proof.
  intros Hx Hy. unfold f64_ge, f64_lt, SFleb, SFltb. rewrite (SFcompare_swap x y).
  destruct (SFcompare_defined x y Hx Hy) as [c ->]. by destruct c.
Qed.

Lemma greaterThan_loop_passes (m : float64) (ops : list any) (vs : list float64) :
  magnitudes ops vs →
  ∀ i, greaterThan_loop m i ops = Ok None ↔ Forall (fun v => f64_le v m = false) vs.
Proof.
  induction 1 as [|a v ops vs Ha _ IH]; intros i; simpl.
  - split; [constructor|done].
  - rewrite Ha. cbn [mbind outcome_bind]. rewrite Forall_cons.
    destruct (f64_le v m); [|rewrite IH]; intuition congruence.
Qed.

Lemma greaterThan_loop_fails (m : float64) (ops : list any) (pre post : list float64)
    (v : float64) :
  magnitudes ops (pre ++ v :: post) →
  Forall (fun u => f64_le u m = false) pre →
  f64_le v m = true →
  ∀ i, greaterThan_loop m i ops = Ok (Some (not_greater (i + Z.of_nat (length pre) + 2) v m)).
Proof.
  revert ops. induction pre as [|u pre IH]; intros ops Hops Hpre Hv i.
  - apply Forall2_cons_inv_r in Hops as (a & ops' & Ha & _ & ->).
    simpl. rewrite Ha. cbn [mbind outcome_bind]. rewrite Hv.
    by rewrite Z.add_0_r.
  - apply Forall2_cons_inv_r in Hops as (a & ops' & Ha & Hops & ->).
    apply Forall_cons in Hpre as [Hu Hpre].
    cbn [greaterThan_loop]. rewrite Ha. cbn [mbind outcome_bind]. rewrite Hu.
    rewrite (IH ops' Hops Hpre Hv). do 3 f_equal. simpl length. lia.
Qed.

Lemma greaterThan_cons (c : any) (ops : list any) (m : float64) :
  ops ≠ [] → reduce true c = Ok (Some m) →
  greaterThan (c :: ops) = greaterThan_loop m 0 ops.
Proof.
  intros Hops Hc. destruct ops as [|a ops]; [done|].
  unfold greaterThan. rewrite Hc. reflexivity.
Qed.

(** C5, as amended: with a supported comparer of magnitude [m] and
    supported operands of magnitudes [vs], [greaterThan] passes exactly when
    no operand is less than or equal to the comparer as [float64] compares
    them; when no magnitude is NaN, that is exactly when every operand is
    strictly greater.  The comparer and the operands alike are measured by
    their length when they are strings, slices or arrays, and by their value
    when they are numbers, signed, unsigned or floating; the comparer may
    also be a map, measured by the number of its entries.  The first operand
    that fails yields the error that
    cites its position (2 for the first operand), its magnitude and the
    comparer's.  So [greaterThan(5, 6)] passes, [greaterThan(5, 5)] and
    [greaterThan(5, 4)] fail, and [greaterThan("ab", "abc")] passes; with
    an unsigned comparer [greaterThan(uint(5), 3)] fails, and with a slice
    of two as comparer 3 passes and 2 fails. *)
Theorem greaterThan_strictly_greater (c : any) (ops : list any) (m : float64)
    (vs : list float64) :
  ops ≠ [] →
  reduce true c = Ok (Some m) →
  magnitudes ops vs →
  (greaterThan (c :: ops) = Ok None ↔ Forall (fun v => f64_le v m = false) vs)
  ∧ (is_nan m = false → Forall (fun v => is_nan v = false) vs →
     (greaterThan (c :: ops) = Ok None ↔ Forall (fun v => f64_gt v m = true) vs))
  ∧ (∀ pre v post,
       vs = pre ++ v :: post →
       Forall (fun u => f64_le u m = false) pre →
       f64_le v m = true →
       greaterThan (c :: ops)
       = Ok (Some (not_greater (Z.of_nat (length pre) + 2) v m)))
  ∧ (∀ T s, reduce false (VString T s) = Ok (Some (float64_of_Z (len s))))
  ∧ (∀ T xs, reduce false (VSlice T xs) = Ok (Some (float64_of_Z (Z.of_nat (length xs))))
             ∧ reduce false (VArray T xs) = Ok (Some (float64_of_Z (Z.of_nat (length xs)))))
  ∧ (∀ T k n, reduce false (VInt T k n) = Ok (Some (float64_of_Z n)))
  ∧ (∀ T k n, reduce false (VUint T k n) = Ok (Some (float64_of_Z n)))
  ∧ (∀ T k f, reduce false (VFloat T k f) = Ok (Some f))
  ∧ greaterThan [int 5; int 6] = Ok None
  ∧ greaterThan [int 5; int 5]
    = Ok (Some (not_greater 2 (float64_of_Z 5) (float64_of_Z 5)))
  ∧ greaterThan [int 5; int 4]
    = Ok (Some (not_greater 2 (float64_of_Z 4) (float64_of_Z 5)))
  ∧ greaterThan [str "ab"; str "abc"] = Ok None
  ∧ (∀ T s, reduce true (VString T s) = Ok (Some (float64_of_Z (len s))))
  ∧ (∀ T xs, reduce true (VSlice T xs) = Ok (Some (float64_of_Z (Z.of_nat (length xs))))
             ∧ reduce true (VArray T xs) = Ok (Some (float64_of_Z (Z.of_nat (length xs)))))
  ∧ (∀ T kvs, reduce true (VMap T kvs) = Ok (Some (float64_of_Z (Z.of_nat (length kvs)))))
  ∧ (∀ T k n, reduce true (VInt T k n) = Ok (Some (float64_of_Z n)))
  ∧ (∀ T k n, reduce true (VUint T k n) = Ok (Some (float64_of_Z n)))
  ∧ (∀ T k f, reduce true (VFloat T k f) = Ok (Some f))
  ∧ greaterThan [uint 5; int 3]
    = Ok (Some (not_greater 2 (float64_of_Z 3) (float64_of_Z 5)))
  ∧ greaterThan [ints [1; 2]; int 3] = Ok None
  ∧ greaterThan [ints [1; 2]; int 2]
    = Ok (Some (not_greater 2 (float64_of_Z 2) (float64_of_Z 2))).
Proof.
  intros Hops Hc Hvs. rewrite (greaterThan_cons c ops m Hops Hc).
  split; [by apply greaterThan_loop_passes|]. split; [|split].
  - intros Hm Hnan. rewrite (greaterThan_loop_passes m ops vs Hvs 0).
    rewrite !Forall_forall. split; intros Hall v Hv.
    + specialize (Hall v Hv). rewrite Forall_forall in Hnan.
      rewrite f64_le_not_gt in Hall by auto. by apply negb_false_iff.
    + rewrite Forall_forall in Hnan. rewrite f64_le_not_gt by auto.
      by rewrite (Hall v Hv).
  - intros pre v post -> Hpre Hv.
    by rewrite (greaterThan_loop_fails m ops pre post v Hvs Hpre Hv 0).
  - split; [done|]. split; [done|].
    split; [by intros T []|]. split; [by intros T []|]. split; [by intros T []|].
    do 4 (split; [reflexivity|]).
    split; [done|]. split; [done|]. split; [done|].
    split; [by intros T []|]. split; [by intros T []|]. split; [by intros T []|].
    by repeat split.
Qed.

Lemma greaterThan_strictly_greater_witness :
  greaterThan [str "ab"; str "abc"; int 7] = Ok None
  ↔ Forall (fun v => f64_le v (float64_of_Z 2) = false) [float64_of_Z 3; float64_of_Z 7].
Proof.
  apply (greaterThan_strictly_greater (str "ab") [str "abc"; int 7]
           (float64_of_Z 2) [float64_of_Z 3; float64_of_Z 7]).
  - discriminate.
  - reflexivity.
  - repeat constructor.
Defined.

(** C5, as stated, fails: a NaN comparer is a supported operand, the
    operand 1.0 is not strictly greater than it, and [greaterThan] passes. *)
Lemma greaterThan_passes_on_NaN :
  reduce true (f64 S754_nan) = Ok (Some S754_nan)
  ∧ magnitudes [f64 (float64_of_Z 1)] [float64_of_Z 1]
  ∧ f64_gt (float64_of_Z 1) S754_nan = false
  ∧ greaterThan [f64 S754_nan; f64 (float64_of_Z 1)] = Ok None.
Proof. repeat split. repeat constructor. Qed.

(** C10: comparisons are made on [float64] values, so integers above 2^53
    can compare wrongly: 2^53 < 2^53 + 1 as int64 values, both widen to the
    same [float64], and [greaterThan(2^53, 2^53 + 1)] returns a validation
    error (as does [lessThan(2^53 + 1, 2^53)]). *)
Theorem greaterThan_widening_loses_order :
  ∃ a b : Z,
    int64_range a ∧ int64_range b ∧ a < b
    ∧ float64_of_Z a = float64_of_Z b
    ∧ greaterThan [int64 a; int64 b]
      = Ok (Some (not_greater 2 (float64_of_Z b) (float64_of_Z a)))
    ∧ lessThan [int64 b; int64 a]
      = Ok (Some (not_less 2 (float64_of_Z a) (float64_of_Z b))).
Proof.
  exists (2 ^ 53), (2 ^ 53 + 1). unfold int64_range.
  repeat split; try reflexivity; by vm_compute.
Qed.

(** ** The context is frozen once it has failed *)

Section Frozen.
Context {W : Type}.

Lemma Instantiable_Check_frozen (R : Instantiable.RuleTables W)
    (σ : Instantiable.State W) (ctx : loc) (c : Instantiable.ValidationContext)
    (handlerName : string) (params : list any) :
  Instantiable.ctxs σ !! ctx = Some c → Instantiable.err c ≠ None →
  Instantiable.Check R ctx handlerName params σ = (Ok ctx, σ).
Proof.
  intros Hctx Herr. unfold Instantiable.Check, mbind, M_bind, Instantiable.load.
  rewrite Hctx. by destruct (Instantiable.err c).
Qed.

Lemma Instantiable_Must_frozen (σ : Instantiable.State W) (ctx : loc)
    (c : Instantiable.ValidationContext) (fnc : M (Instantiable.State W) bool) :
  Instantiable.ctxs σ !! ctx = Some c → Instantiable.err c ≠ None →
  Instantiable.Must ctx fnc σ = (Ok ctx, σ).
Proof.
  intros Hctx Herr. unfold Instantiable.Must, mbind, M_bind, Instantiable.load.
  rewrite Hctx. by destruct (Instantiable.err c).
Qed.

Lemma Singleton_Check_frozen (R : gmap string (Singleton.RuleFunc W))
    (σ : Singleton.State W) (ctx : loc) (c : Singleton.ValidationContext)
    (handlerName : string) (params : list any) :
  Singleton.ctxs σ !! ctx = Some c → Singleton.err c ≠ None →
  Singleton.Check R ctx handlerName params σ = (Ok ctx, σ).
Proof.
  intros Hctx Herr. unfold Singleton.Check, mbind, M_bind, Singleton.load.
  rewrite Hctx. by destruct (Singleton.err c).
Qed.

Lemma Singleton_Must_frozen (σ : Singleton.State W) (ctx : loc)
    (c : Singleton.ValidationContext) (fnc : M (Singleton.State W) bool) :
  Singleton.ctxs σ !! ctx = Some c → Singleton.err c ≠ None →
  Singleton.Must ctx fnc σ = (Ok ctx, σ).
Proof.
  intros Hctx Herr. unfold Singleton.Must, mbind, M_bind, Singleton.load.
  rewrite Hctx. by destruct (Singleton.err c).
Qed.

Lemma Singleton_MustErr_frozen (σ : Singleton.State W) (ctx : loc)
    (c : Singleton.ValidationContext) (fnc : M (Singleton.State W) (option error)) :
  Singleton.ctxs σ !! ctx = Some c → Singleton.err c ≠ None →
  Singleton.MustErr ctx fnc σ = (Ok ctx, σ).
Proof.
  intros Hctx Herr. unfold Singleton.MustErr, mbind, M_bind, Singleton.load.
  rewrite Hctx. by destruct (Singleton.err c).
Qed.

(** C2: [Message] leaves a context without error as it is, and on a
    failed context stores [errors.New(text)], an error whose text is
    [text], in place of the stored error; either way it returns the
    pointer it was called on. *)
Theorem Message_rewords_failures_only
    (σ1 : Instantiable.State W) (ctx1 : loc) (c1 : Instantiable.ValidationContext)
    (σ2 : Singleton.State W) (ctx2 : loc) (c2 : Singleton.ValidationContext)
    (message : string) :
  Instantiable.ctxs σ1 !! ctx1 = Some c1 →
  Singleton.ctxs σ2 !! ctx2 = Some c2 →
  (Instantiable.err c1 = None → Instantiable.Message ctx1 message σ1 = (Ok ctx1, σ1))
  ∧ (Instantiable.err c1 ≠ None →
     Instantiable.Message ctx1 message σ1
     = (Ok ctx1,
        Instantiable.mk_state
          (<[ctx1 := Instantiable.mk_ctx (Instantiable.validator c1)
                       (Some (errors_New message))]> (Instantiable.ctxs σ1))
          (Instantiable.world σ1)))
  ∧ (Singleton.err c2 = None → Singleton.Message ctx2 message σ2 = (Ok ctx2, σ2))
  ∧ (Singleton.err c2 ≠ None →
     Singleton.Message ctx2 message σ2
     = (Ok ctx2,
        Singleton.mk_state
          (<[ctx2 := Singleton.mk_ctx (Some (errors_New message))]> (Singleton.ctxs σ2))
          (Singleton.world σ2)))
  ∧ Error (errors_New message) = Lit message.
Proof.
  intros H1 H2. repeat split.
  - intros E. unfold Instantiable.Message, mbind, M_bind, Instantiable.load.
    by rewrite H1, E.
  - intros E.
    unfold Instantiable.Message, mbind, M_bind, Instantiable.load, Instantiable.set_err.
    rewrite H1. destruct (Instantiable.err c1); [|done]. by rewrite H1.
  - intros E. unfold Singleton.Message, mbind, M_bind, Singleton.load.
    by rewrite H2, E.
  - intros E.
    unfold Singleton.Message, mbind, M_bind, Singleton.load, Singleton.set_err.
    rewrite H2. destruct (Singleton.err c2); [|done]. by rewrite H2.
Qed.
End Frozen.

(** [Message] on a failed context and on one that has not failed. *)
Lemma Message_rewords_failures_only_witness :
  Instantiable.Message 1%positive "age must be positive" failed_Instantiable
  = (Ok 1%positive,
     Instantiable.mk_state
       {[ 1%positive := Instantiable.mk_ctx 2%positive
                          (Some (errors_New "age must be positive")) ]} 0%nat)
  ∧ Singleton.Message 1%positive "age must be positive" fresh_Singleton
    = (Ok 1%positive, fresh_Singleton).
Proof.
  destruct (Message_rewords_failures_only
              failed_Instantiable 1%positive
              (Instantiable.mk_ctx 2%positive (Some (errors_New "name required")))
              fresh_Singleton 1%positive (Singleton.mk_ctx None)
              "age must be positive")
    as (_ & Hfailed & Hok & _ & _); try reflexivity.
  split.
  - rewrite Hfailed by discriminate. reflexivity.
  - by apply Hok.
Defined.

(** ** Chains of calls and [ValidateStruct] *)

Section Chains.
Context {W : Type}.
Implicit Types (R : gmap string (Singleton.RuleFunc W)) (σ : Singleton.State W).
Implicit Types (cs : list (Singleton.chain_call W)) (ctx : loc) (e : error).

Lemma state_insert_id σ ctx c :
  Singleton.ctxs σ !! ctx = Some c →
  Singleton.mk_state (<[ctx := c]> (Singleton.ctxs σ)) (Singleton.world σ) = σ.
Proof. intros H. rewrite insert_id by done. by destruct σ. Qed.

Lemma reworded_cons_message e (m : string) cs :
  Singleton.reworded e (Singleton.DoMessage m :: cs)
  = Singleton.reworded (errors_New m) cs.
Proof.
  unfold Singleton.reworded. simpl. by destruct (Singleton.last_message cs).
Qed.

Lemma reworded_cons_check e (c : Singleton.chain_call W) cs :
  Singleton.verdict ∅ c ≠ None →
  Singleton.reworded e (c :: cs) = Singleton.reworded e cs.
Proof.
  unfold Singleton.reworded. simpl.
  by destruct c, (Singleton.last_message cs).
Qed.

(** On a failed context a chain only rewords the stored error. *)
Lemma run_chain_failed R cs : ∀ σ ctx e,
  Singleton.ctxs σ !! ctx = Some (Singleton.mk_ctx (Some e)) →
  Singleton.run_chain R ctx cs σ
  = (Ok ctx,
     Singleton.mk_state
       (<[ctx := Singleton.mk_ctx (Some (Singleton.reworded e cs))]> (Singleton.ctxs σ))
       (Singleton.world σ)).
Proof.
  induction cs as [|c cs IH]; intros σ ctx e Hctx.
  - simpl. unfold mret, M_ret. by rewrite state_insert_id.
  - cbn [Singleton.run_chain]. unfold mbind, M_bind.
    destruct c as [n ps|fnc|fnc|m]; cbn [Singleton.run_call].
    + rewrite (Singleton_Check_frozen R σ ctx _ n ps Hctx) by done.
      rewrite (IH σ ctx e Hctx). by rewrite reworded_cons_check.
    + rewrite (Singleton_Must_frozen σ ctx _ _ Hctx) by done.
      rewrite (IH σ ctx e Hctx). by rewrite reworded_cons_check.
    + rewrite (Singleton_MustErr_frozen σ ctx _ _ Hctx) by done.
      rewrite (IH σ ctx e Hctx). by rewrite reworded_cons_check.
    + unfold Singleton.Message, mbind, M_bind, Singleton.load, Singleton.set_err.
      rewrite Hctx. cbn [Singleton.err]. rewrite Hctx. unfold mret, M_ret.
      rewrite (IH _ ctx (errors_New m)) by (simpl; apply lookup_insert_eq).
      simpl. by rewrite insert_insert_eq, reworded_cons_message.
Qed.

(** What one check does to a context that has not failed. *)
Lemma run_call_verdict R σ ctx (c : Singleton.chain_call W) (v : M W (option error)) :
  Singleton.ctxs σ !! ctx = Some (Singleton.mk_ctx None) →
  Singleton.verdict R c = Some v →
  Singleton.run_call R ctx c σ
  = match v (Singleton.world σ) with
    | (Ok e, w) =>
      (Ok ctx, Singleton.mk_state (<[ctx := Singleton.mk_ctx e]> (Singleton.ctxs σ)) w)
    | (Panic p, w) => (Panic p, Singleton.mk_state (Singleton.ctxs σ) w)
    end.
Proof.
  intros Hctx Hv.
  destruct c as [n ps|fnc|fnc|m]; simpl in Hv; try discriminate Hv;
    injection Hv as <-; simpl.
  - unfold Singleton.Check, mbind, M_bind, Singleton.load. rewrite Hctx.
    cbn [Singleton.err]. destruct (R !! n) as [rule|]; [|by destruct σ].
    unfold Singleton.call. destruct (rule ps (Singleton.world σ)) as [[e|p] w]; [|done].
    unfold Singleton.set_err. simpl. by rewrite Hctx.
  - unfold Singleton.Must, mbind, M_bind, Singleton.load. rewrite Hctx.
    cbn [Singleton.err]. unfold Singleton.call.
    destruct (fnc (Singleton.world σ)) as [[[]|p] w]; [| |done].
    + simpl. unfold mret, M_ret. by rewrite insert_id.
    + unfold Singleton.set_err. simpl. by rewrite Hctx.
  - unfold Singleton.MustErr, mbind, M_bind, Singleton.load. rewrite Hctx.
    cbn [Singleton.err]. unfold Singleton.call.
    destruct (fnc (Singleton.world σ)) as [[e|p] w]; [|done].
    unfold Singleton.set_err. simpl. by rewrite Hctx.
Qed.

Lemma run_call_message R σ ctx (m : string) :
  Singleton.ctxs σ !! ctx = Some (Singleton.mk_ctx None) →
  Singleton.run_call R ctx (Singleton.DoMessage m) σ = (Ok ctx, σ).
Proof.
  intros Hctx. simpl. unfold Singleton.Message, mbind, M_bind, Singleton.load.
  by rewrite Hctx.
Qed.

(** A chain run on a context that has not failed stops evaluating at the
    first failure and stores it, reworded by the messages that follow. *)
Lemma run_chain_first_failure R cs : ∀ σ ctx,
  Singleton.ctxs σ !! ctx = Some (Singleton.mk_ctx None) →
  Singleton.run_chain R ctx cs σ
  = match Singleton.first_failure R cs (Singleton.world σ) with
    | (Ok e, w) =>
      (Ok ctx, Singleton.mk_state (<[ctx := Singleton.mk_ctx e]> (Singleton.ctxs σ)) w)
    | (Panic p, w) => (Panic p, Singleton.mk_state (Singleton.ctxs σ) w)
    end.
Proof.
  induction cs as [|c cs IH]; intros σ ctx Hctx.
  - simpl. unfold mret, M_ret. by rewrite state_insert_id.
  - cbn [Singleton.run_chain Singleton.first_failure]. unfold mbind at 1, M_bind at 1.
    destruct (Singleton.verdict R c) as [v|] eqn:Hv.
    + rewrite (run_call_verdict R σ ctx c v Hctx Hv).
      unfold mbind, M_bind.
      destruct (v (Singleton.world σ)) as [[[e1|]|p] w]; [| |done].
      * rewrite (run_chain_failed R cs _ ctx e1) by (simpl; apply lookup_insert_eq).
        simpl. by rewrite insert_insert_eq.
      * rewrite IH by (simpl; apply lookup_insert_eq). simpl.
        destruct (Singleton.first_failure R cs w) as [[e|p] w'].
        -- by rewrite insert_insert_eq.
        -- by rewrite insert_id.
    + destruct c as [n ps|fnc|fnc|m]; try discriminate Hv.
      rewrite (run_call_message R σ ctx m Hctx). by apply IH.
Qed.
End Chains.

(** ** A failed context absorbs every later check *)

Section Absorbing.
Context {W : Type}.

Lemma last_message_of_checks (cs : list (Singleton.chain_call W)) :
  Forall (fun c => Singleton.verdict ∅ c ≠ None) cs →
  Singleton.last_message cs = None.
Proof.
  induction 1 as [|c cs Hc _ IH]; [done|]. simpl. rewrite IH. by destruct c.
Qed.

(** C1: on a context that has failed, [Check], [Must] and [MustErr]
    return the pointer they were called on and leave the whole state as it
    was: the stored error, and the world of the closures, whatever rule
    table, rule name, operands or closure they are given, so no rule and
    no predicate was run.  The same holds of any number of such calls
    chained one after the other. *)
Theorem failed_context_is_frozen
    (σ1 : Instantiable.State W) (ctx1 : loc) (c1 : Instantiable.ValidationContext)
    (σ2 : Singleton.State W) (ctx2 : loc) (c2 : Singleton.ValidationContext) :
  Instantiable.ctxs σ1 !! ctx1 = Some c1 → Instantiable.err c1 ≠ None →
  Singleton.ctxs σ2 !! ctx2 = Some c2 → Singleton.err c2 ≠ None →
  (∀ R handlerName params,
      Instantiable.Check R ctx1 handlerName params σ1 = (Ok ctx1, σ1))
  ∧ (∀ fnc, Instantiable.Must ctx1 fnc σ1 = (Ok ctx1, σ1))
  ∧ (∀ R handlerName params,
      Singleton.Check R ctx2 handlerName params σ2 = (Ok ctx2, σ2))
  ∧ (∀ fnc, Singleton.Must ctx2 fnc σ2 = (Ok ctx2, σ2))
  ∧ (∀ fnc, Singleton.MustErr ctx2 fnc σ2 = (Ok ctx2, σ2))
  ∧ (∀ R cs, Forall (fun c => Singleton.verdict ∅ c ≠ None) cs →
      Singleton.run_chain R ctx2 cs σ2 = (Ok ctx2, σ2)).
Proof.
  intros H1 E1 H2 E2. split; [|split; [|split; [|split; [|split]]]]; intros.
  - by eapply Instantiable_Check_frozen.
  - by eapply Instantiable_Must_frozen.
  - by eapply Singleton_Check_frozen.
  - by eapply Singleton_Must_frozen.
  - by eapply Singleton_MustErr_frozen.
  - destruct c2 as [[e|]]; [|done].
    rewrite (run_chain_failed R cs σ2 ctx2 e H2). unfold Singleton.reworded.
    rewrite last_message_of_checks by done. by rewrite state_insert_id.
Qed.
End Absorbing.

(** A predicate that would panic is not run on a failed context. *)
Lemma failed_context_is_frozen_witness :
  Instantiable.Must 1%positive (Instantiable.call explode) failed_Instantiable
  = (Ok 1%positive, failed_Instantiable)
  ∧ Singleton.MustErr 1%positive (Singleton.call explode) failed_Singleton
    = (Ok 1%positive, failed_Singleton).
Proof.
  destruct (failed_context_is_frozen
              failed_Instantiable 1%positive
              (Instantiable.mk_ctx 2%positive (Some (errors_New "name required")))
              failed_Singleton 1%positive
              (Singleton.mk_ctx (Some (errors_New "name required"))))
    as (_ & HMust & _ & _ & HMustErr & _); try reflexivity; try discriminate.
  split; [apply HMust | apply HMustErr].
Defined.


Section Validate.
Context {W : Type}.
Implicit Types (g : Singleton.Globals W) (σ : Singleton.State W).

End Validate.



(** ** Contract violations *)

Section Contract.
Context {W : Type}.

Lemma Singleton_Check_unregistered (R : gmap string (Singleton.RuleFunc W))
    (σ : Singleton.State W) (ctx : loc) (c : Singleton.ValidationContext)
    (handlerName : string) (params : list any) :
  Singleton.ctxs σ !! ctx = Some c → Singleton.err c = None →
  R !! handlerName = None →
  Singleton.Check R ctx handlerName params σ
  = (Panic (Lit ("Rule " +:+ handlerName +:+ " has not been registered")), σ).
Proof.
  intros Hctx Herr HR. unfold Singleton.Check, mbind, M_bind, Singleton.load.
  unfold Singleton.RuleFunc in *. by rewrite Hctx, Herr, HR.
Qed.

Lemma Instantiable_Check_unregistered (R : Instantiable.RuleTables W)
    (σ : Instantiable.State W) (ctx : loc) (c : Instantiable.ValidationContext)
    (handlerName : string) (params : list any) :
  Instantiable.ctxs σ !! ctx = Some c → Instantiable.err c = None →
  (∀ table, R !! Instantiable.validator c = Some (Some table) →
            table !! handlerName = None) →
  ∃ v, Instantiable.Check R ctx handlerName params σ = (Panic v, σ).
Proof.
  intros Hctx Herr HR. unfold Instantiable.Check, mbind, M_bind, Instantiable.load.
  rewrite Hctx, Herr. unfold Instantiable.RuleTables, Instantiable.RuleFunc in *.
  destruct (R !! Instantiable.validator c) as [[table|]|]; simpl; eauto.
  rewrite (HR table eq_refl). eauto.
Qed.

Lemma Singleton_Check_panic (R : gmap string (Singleton.RuleFunc W))
    (σ σ' : Singleton.State W) (ctx : loc) (handlerName : string)
    (params : list any) (v : text) :
  Singleton.Check R ctx handlerName params σ = (Panic v, σ') →
  Singleton.ctxs σ' = Singleton.ctxs σ.
Proof.
  unfold Singleton.Check, mbind, M_bind, Singleton.load, panic.
  destruct (Singleton.ctxs σ !! ctx) as [c|] eqn:Hctx; [|by intros [= _ <-]].
  destruct (Singleton.err c); [discriminate|].
  destruct (R !! handlerName) as [rule|]; [|by intros [= _ <-]].
  unfold Singleton.call, Singleton.set_err.
  destruct (rule params (Singleton.world σ)) as [[e|p] w]; simpl.
  - by rewrite Hctx.
  - by intros [= _ <-].
Qed.

Lemma Instantiable_Check_panic (R : Instantiable.RuleTables W)
    (σ σ' : Instantiable.State W) (ctx : loc) (handlerName : string)
    (params : list any) (v : text) :
  Instantiable.Check R ctx handlerName params σ = (Panic v, σ') →
  Instantiable.ctxs σ' = Instantiable.ctxs σ.
Proof.
  unfold Instantiable.Check, mbind, M_bind, Instantiable.load, panic.
  destruct (Instantiable.ctxs σ !! ctx) as [c|] eqn:Hctx; [|by intros [= _ <-]].
  destruct (Instantiable.err c); [discriminate|].
  unfold Instantiable.RuleTables, Instantiable.RuleFunc in *.
  destruct (R !! Instantiable.validator c) as [table|]; [|by intros [= _ <-]].
  destruct table as [m|]; simpl; [|by intros [= _ <-]].
  destruct (m !! handlerName) as [rule|]; [|by intros [= _ <-]].
  unfold Instantiable.call, Instantiable.set_err.
  destruct (rule params (Instantiable.world σ)) as [[e|p] w]; simpl.
  - by rewrite Hctx.
  - by intros [= _ <-].
Qed.

(** A panic raised inside the rule leaves [Check] as a panic, before the
    assignment to [ctx.err]. *)
Lemma Singleton_Check_rule_panics (R : gmap string (Singleton.RuleFunc W))
    (σ : Singleton.State W) (ctx : loc) (c : Singleton.ValidationContext)
    (handlerName : string) (params : list any) (rule : Singleton.RuleFunc W)
    (v : text) (w : W) :
  Singleton.ctxs σ !! ctx = Some c → Singleton.err c = None →
  R !! handlerName = Some rule →
  rule params (Singleton.world σ) = (Panic v, w) →
  Singleton.Check R ctx handlerName params σ
  = (Panic v, Singleton.mk_state (Singleton.ctxs σ) w).
Proof.
  intros Hctx Herr HR Hrule. unfold Singleton.Check, mbind, M_bind, Singleton.load.
  unfold Singleton.RuleFunc in *. rewrite Hctx, Herr, HR.
  unfold Singleton.call. by rewrite Hrule.
Qed.

Lemma Instantiable_Check_rule_panics (R : Instantiable.RuleTables W)
    (σ : Instantiable.State W) (ctx : loc) (c : Instantiable.ValidationContext)
    (table : gmap string (Instantiable.RuleFunc W))
    (handlerName : string) (params : list any) (rule : Instantiable.RuleFunc W)
    (v : text) (w : W) :
  Instantiable.ctxs σ !! ctx = Some c → Instantiable.err c = None →
  R !! Instantiable.validator c = Some (Some table) →
  table !! handlerName = Some rule →
  rule params (Instantiable.world σ) = (Panic v, w) →
  Instantiable.Check R ctx handlerName params σ
  = (Panic v, Instantiable.mk_state (Instantiable.ctxs σ) w).
Proof.
  intros Hctx Herr HR Ht Hrule.
  unfold Instantiable.Check, mbind, M_bind, Instantiable.load.
  unfold Instantiable.RuleTables, Instantiable.RuleFunc in *.
  rewrite Hctx, Herr, HR. simpl. rewrite Ht.
  unfold Instantiable.call. by rewrite Hrule.
Qed.

Lemma Singleton_Check_body_panics (R : gmap string (Singleton.RuleFunc W))
    (σ : Singleton.State W) (ctx : loc) (c : Singleton.ValidationContext)
    (handlerName : string) (params : list any)
    (body : list any → outcome (option error)) (v : text) :
  Singleton.ctxs σ !! ctx = Some c → Singleton.err c = None →
  R !! handlerName = Some (pure_rule body) →
  body params = Panic v →
  Singleton.Check R ctx handlerName params σ = (Panic v, σ).
Proof.
  intros Hctx Herr HR Hbody.
  rewrite (Singleton_Check_rule_panics R σ ctx c handlerName params (pure_rule body)
             v (Singleton.world σ) Hctx Herr HR)
    by (unfold pure_rule; by rewrite Hbody).
  by destruct σ.
Qed.

Lemma Instantiable_Check_body_panics (R : Instantiable.RuleTables W)
    (σ : Instantiable.State W) (ctx : loc) (c : Instantiable.ValidationContext)
    (table : gmap string (Instantiable.RuleFunc W))
    (handlerName : string) (params : list any)
    (body : list any → outcome (option error)) (v : text) :
  Instantiable.ctxs σ !! ctx = Some c → Instantiable.err c = None →
  R !! Instantiable.validator c = Some (Some table) →
  table !! handlerName = Some (pure_rule body) →
  body params = Panic v →
  Instantiable.Check R ctx handlerName params σ = (Panic v, σ).
Proof.
  intros Hctx Herr HR Ht Hbody.
  rewrite (Instantiable_Check_rule_panics R σ ctx c table handlerName params
             (pure_rule body) v (Instantiable.world σ) Hctx Herr HR Ht)
    by (unfold pure_rule; by rewrite Hbody).
  by destruct σ.
Qed.

(** A panic of the handler leaves [ValidateStruct] as a panic: no result is
    returned. *)
Lemma ValidateStruct_handler_panics (g : Singleton.Globals W) (T : rtype) (s : any)
    (handler : Singleton.HandlerFunc W) (σ σ' : Singleton.State W) (v : text) :
  TypeOf s = Some T →
  Singleton.typeHandlers g !! T = Some handler →
  handler (Singleton.rules g) s (fresh (dom (Singleton.ctxs σ)))
    (Singleton.mk_state
       (<[fresh (dom (Singleton.ctxs σ)) := Singleton.mk_ctx None]> (Singleton.ctxs σ))
       (Singleton.world σ))
  = (Panic v, σ') →
  Singleton.ValidateStruct g s σ = (Panic v, σ').
Proof.
  intros HT Hh Hp. unfold Singleton.ValidateStruct. rewrite HT.
  cbv beta iota. unfold Singleton.HandlerFunc in *. rewrite Hh.
  unfold mbind, M_bind, Singleton.alloc_ctx. by rewrite Hp.
Qed.

(** A panic inside a check of a chain leaves the chain as a panic, with the
    contexts as they were before the chain. *)
Lemma run_chain_panics (R : gmap string (Singleton.RuleFunc W))
    (cs : list (Singleton.chain_call W)) (σ : Singleton.State W) (ctx : loc)
    (v : text) (w : W) :
  Singleton.ctxs σ !! ctx = Some (Singleton.mk_ctx None) →
  Singleton.first_failure R cs (Singleton.world σ) = (Panic v, w) →
  Singleton.run_chain R ctx cs σ = (Panic v, Singleton.mk_state (Singleton.ctxs σ) w).
Proof.
  intros Hctx Hp. rewrite (run_chain_first_failure R cs σ ctx Hctx). by rewrite Hp.
Qed.

Lemma ValidateStruct_unregistered (g : Singleton.Globals W) (s : any)
    (σ : Singleton.State W) :
  (∀ T, TypeOf s = Some T → Singleton.typeHandlers g !! T = None) →
  ∃ v, Singleton.ValidateStruct g s σ = (Panic v, σ).
Proof.
  intros Hg. unfold Singleton.ValidateStruct.
  destruct (TypeOf s) as [T|]; [|by eexists].
  unfold Singleton.HandlerFunc in *. rewrite (Hg T eq_refl). by eexists.
Qed.
End Contract.

Lemma comparison_arity (params : list any) :
  (length params < 2)%nat →
  greaterThan params
  = Panic (Sprintf "greaterThan: expected at least 2 parameters, got %d"
             [ArgInt (Z.of_nat (length params))])
  ∧ lessThan params
    = Panic (Sprintf "lessThan: expected at least 2 parameters, got %d"
               [ArgInt (Z.of_nat (length params))]).
Proof.
  intros Hlen. destruct params as [|p [|q params]]; [done|done|simpl in Hlen; lia].
Qed.

Lemma isEmail_not_a_string (p : any) (rest : list any) :
  assert_string p = None →
  isEmail (p :: rest) = Panic (Lit "Parameter passed to email rule is not a string").
Proof. intros Hp. simpl. by rewrite Hp. Qed.

(** C6, as amended: contract violations are panics, never a result of the
    context.  [Check] with a rule name that is not registered panics when
    the context has not failed (on a failed context it returns without
    looking the name up); [ValidateStruct] panics on a value whose dynamic
    type has no handler; [greaterThan] and [lessThan] panic on fewer than two
    operands; [isEmail] panics on no operand and on a first operand that is
    not a string.  The panics of [Check] and [ValidateStruct] leave the state
    as it was, and whenever [Check] panics, also from inside the rule it
    runs, the contexts are as they were before the call.  A panic of the
    rule is a panic of [Check], with the same value and before anything is
    stored in the context: so [Check] of one of these rules on operands it
    rejects panics, in either engine; a chain of calls panics with the first
    check that does, its context still without error; and [ValidateStruct]
    panics when its handler does, returning no result. *)
Theorem contract_violations_panic {W : Type} :
  (∀ (R : gmap string (Singleton.RuleFunc W)) σ ctx c handlerName params,
      Singleton.ctxs σ !! ctx = Some c → Singleton.err c = None →
      R !! handlerName = None →
      Singleton.Check R ctx handlerName params σ
      = (Panic (Lit ("Rule " +:+ handlerName +:+ " has not been registered")), σ))
  ∧ (∀ (R : Instantiable.RuleTables W) σ ctx c handlerName params,
      Instantiable.ctxs σ !! ctx = Some c → Instantiable.err c = None →
      (∀ table, R !! Instantiable.validator c = Some (Some table) →
                table !! handlerName = None) →
      ∃ v, Instantiable.Check R ctx handlerName params σ = (Panic v, σ))
  ∧ (∀ (g : Singleton.Globals W) s σ,
      (∀ T, TypeOf s = Some T → Singleton.typeHandlers g !! T = None) →
      ∃ v, Singleton.ValidateStruct g s σ = (Panic v, σ))
  ∧ (∀ params, (length params < 2)%nat →
      greaterThan params
      = Panic (Sprintf "greaterThan: expected at least 2 parameters, got %d"
                 [ArgInt (Z.of_nat (length params))])
      ∧ lessThan params
        = Panic (Sprintf "lessThan: expected at least 2 parameters, got %d"
                   [ArgInt (Z.of_nat (length params))]))
  ∧ isEmail [] = Panic (Lit "No parameters passed to email rule")
  ∧ (∀ p rest, assert_string p = None →
      isEmail (p :: rest) = Panic (Lit "Parameter passed to email rule is not a string"))
  ∧ (∀ (R : gmap string (Singleton.RuleFunc W)) σ σ' ctx handlerName params v,
      Singleton.Check R ctx handlerName params σ = (Panic v, σ') →
      Singleton.ctxs σ' = Singleton.ctxs σ)
  ∧ (∀ (R : Instantiable.RuleTables W) σ σ' ctx handlerName params v,
      Instantiable.Check R ctx handlerName params σ = (Panic v, σ') →
      Instantiable.ctxs σ' = Instantiable.ctxs σ)
  ∧ (∀ (R : gmap string (Singleton.RuleFunc W)) σ ctx c handlerName params rule v w,
      Singleton.ctxs σ !! ctx = Some c → Singleton.err c = None →
      R !! handlerName = Some rule →
      rule params (Singleton.world σ) = (Panic v, w) →
      Singleton.Check R ctx handlerName params σ
      = (Panic v, Singleton.mk_state (Singleton.ctxs σ) w))
  ∧ (∀ (R : Instantiable.RuleTables W) σ ctx c table handlerName params rule v w,
      Instantiable.ctxs σ !! ctx = Some c → Instantiable.err c = None →
      R !! Instantiable.validator c = Some (Some table) →
      table !! handlerName = Some rule →
      rule params (Instantiable.world σ) = (Panic v, w) →
      Instantiable.Check R ctx handlerName params σ
      = (Panic v, Instantiable.mk_state (Instantiable.ctxs σ) w))
  ∧ (∀ (R : gmap string (Singleton.RuleFunc W)) σ ctx c handlerName params body v,
      Singleton.ctxs σ !! ctx = Some c → Singleton.err c = None →
      R !! handlerName = Some (pure_rule body) →
      body params = Panic v →
      Singleton.Check R ctx handlerName params σ = (Panic v, σ))
  ∧ (∀ (R : Instantiable.RuleTables W) σ ctx c table handlerName params body v,
      Instantiable.ctxs σ !! ctx = Some c → Instantiable.err c = None →
      R !! Instantiable.validator c = Some (Some table) →
      table !! handlerName = Some (pure_rule body) →
      body params = Panic v →
      Instantiable.Check R ctx handlerName params σ = (Panic v, σ))
  ∧ (∀ (R : gmap string (Singleton.RuleFunc W)) cs σ ctx v w,
      Singleton.ctxs σ !! ctx = Some (Singleton.mk_ctx None) →
      Singleton.first_failure R cs (Singleton.world σ) = (Panic v, w) →
      Singleton.run_chain R ctx cs σ
      = (Panic v, Singleton.mk_state (Singleton.ctxs σ) w))
  ∧ (∀ (g : Singleton.Globals W) T s handler σ σ' v,
      TypeOf s = Some T →
      Singleton.typeHandlers g !! T = Some handler →
      handler (Singleton.rules g) s (fresh (dom (Singleton.ctxs σ)))
        (Singleton.mk_state
           (<[fresh (dom (Singleton.ctxs σ)) := Singleton.mk_ctx None]> (Singleton.ctxs σ))
           (Singleton.world σ))
      = (Panic v, σ') →
      Singleton.ValidateStruct g s σ = (Panic v, σ')).
Proof.
  split; [apply @Singleton_Check_unregistered|].
  split; [apply @Instantiable_Check_unregistered|].
  split; [apply @ValidateStruct_unregistered|].
  split; [apply comparison_arity|].
  split; [reflexivity|].
  split; [apply isEmail_not_a_string|].
  split; [apply @Singleton_Check_panic|].
  split; [apply @Instantiable_Check_panic|].
  split; [apply @Singleton_Check_rule_panics|].
  split; [apply @Instantiable_Check_rule_panics|].
  split; [apply @Singleton_Check_body_panics|].
  split; [apply @Instantiable_Check_body_panics|].
  split; [apply @run_chain_panics|apply @ValidateStruct_handler_panics].
Qed.

(** On a context that has not failed, after [Init], [Check] of "isEmail"
    panics and so does [Check] of "greaterThan" with one operand, once the
    rule has been called (the count goes to 1); the context stays without
    error. *)
Lemma contract_violations_panic_witness :
  Singleton.Check (Singleton.rules counting_rules) 1%positive "isEmail"
    [str "a@b.c"] fresh_Singleton
  = (Panic (Lit "Rule isEmail has not been registered"), fresh_Singleton)
  ∧ Singleton.Check (Singleton.rules counting_rules) 1%positive "greaterThan"
      [int 1] fresh_Singleton
    = (Panic (Sprintf "greaterThan: expected at least 2 parameters, got %d" [ArgInt 1]),
       Singleton.mk_state {[ 1%positive := Singleton.mk_ctx None ]} 1%nat).
Proof.
  split.
  - apply (proj1 (@contract_violations_panic nat)
             (Singleton.rules counting_rules) fresh_Singleton 1%positive
             (Singleton.mk_ctx None)); reflexivity.
  - apply (proj1 (proj2 (proj2 (proj2 (proj2 (proj2 (proj2 (proj2 (proj2
             (@contract_violations_panic nat)))))))))
             (Singleton.rules counting_rules) fresh_Singleton 1%positive
             (Singleton.mk_ctx None) "greaterThan" [int 1] (counted greaterThan));
      reflexivity.
Defined.

(** C6, as stated, fails: on a context that has failed, [Check] with a rule
    name that is not registered returns normally. *)
Lemma Check_unregistered_on_failed_context :
  (∅ : gmap string (Singleton.RuleFunc nat)) !! "isEmail" = None
  ∧ Singleton.Check ∅ 1%positive "isEmail" [str "a@b.c"] failed_Singleton
    = (Ok 1%positive, failed_Singleton).
Proof. split; reflexivity. Qed.

(** ** Registration and set-up *)

Section Registries.
Context {W : Type}.

Lemma Singleton_resolve_rule (g : Singleton.Globals W) (ruleName : string)
    (fnc : Singleton.RuleFunc W) :
  Singleton.rules (Singleton.RegisterRule ruleName fnc g).2 !! ruleName = Some fnc.
Proof. simpl. apply lookup_insert_eq. Qed.

Lemma Singleton_resolve_other_rule (g : Singleton.Globals W) (ruleName other : string)
    (fnc : Singleton.RuleFunc W) :
  ruleName ≠ other →
  Singleton.rules (Singleton.RegisterRule ruleName fnc g).2 !! other
  = Singleton.rules g !! other.
Proof. intros Hne. simpl. by apply lookup_insert_ne. Qed.

Lemma Singleton_resolve_type (g : Singleton.Globals W) (T : rtype)
    (handler : Singleton.HandlerFunc W) :
  ∃ wrapped : Singleton.HandlerFunc W,
    Singleton.typeHandlers (Singleton.RegisterType T handler g).2 !! T = Some wrapped
    ∧ ∀ R a ctx, TypeOf a = Some T → wrapped R a ctx = handler R a ctx.
Proof.
  eexists. split; [simpl; apply lookup_insert_eq|].
  intros R a ctx Ha. simpl. by rewrite decide_True.
Qed.

Lemma Instantiable_resolve_rule (V : gmap loc (Instantiable.Validator W)) (v : loc)
    (val : Instantiable.Validator W) (table : gmap string (Instantiable.RuleFunc W))
    (ruleName : string) (fnc : Instantiable.RuleFunc W) :
  V !! v = Some val → Instantiable.rules val = Some table →
  (Instantiable.RegisterRule v ruleName fnc V).1 = Ok ()
  ∧ Instantiable.rule_tables (Instantiable.RegisterRule v ruleName fnc V).2 !! v
    = Some (Some (<[ruleName := fnc]> table))
  ∧ <[ruleName := fnc]> table !! ruleName = Some fnc.
Proof.
  intros Hv Htable. unfold Instantiable.RegisterRule, Instantiable.rule_tables.
  rewrite Hv, Htable. cbn [fst snd]. split; [done|].
  split; [|apply lookup_insert_eq].
  unfold Instantiable.RuleTables. by rewrite lookup_fmap, lookup_insert_eq.
Qed.

(** C8 on the code: [New] allocates a [Validator] whose two maps are nil
    and panics in its first [RegisterRule], on whatever store it is run;
    [Init] registers [notEmpty], [greaterThan] and [lessThan] and no
    [isEmail], so after [Init] a [Check] of "isEmail" on a context without
    error panics. *)
Theorem setup_does_not_register_all_rules :
  (∀ V : gmap loc (Instantiable.Validator W),
      Instantiable.New V
      = (Panic nil_map_assignment,
         <[fresh (dom V) := Instantiable.mk_validator None None]> V))
  ∧ Singleton.rules (Singleton.Init (W:=W) Singleton.start).2 !! "isEmail" = None
  ∧ Singleton.rules (Singleton.Init (W:=W) Singleton.start).2 !! "notEmpty"
    = Some (pure_rule notEmpty_Init)
  ∧ Singleton.rules (Singleton.Init (W:=W) Singleton.start).2 !! "greaterThan"
    = Some (pure_rule greaterThan)
  ∧ Singleton.rules (Singleton.Init (W:=W) Singleton.start).2 !! "lessThan"
    = Some (pure_rule lessThan)
  ∧ (∀ (σ : Singleton.State W) ctx c params,
      Singleton.ctxs σ !! ctx = Some c → Singleton.err c = None →
      Singleton.Check (Singleton.rules (Singleton.Init Singleton.start).2) ctx
        "isEmail" params σ
      = (Panic (Lit "Rule isEmail has not been registered"), σ)).
Proof.
  split; [|split; [|split; [|split; [|split]]]]; try reflexivity.
  - intros V. unfold Instantiable.New, mbind, M_bind, Instantiable.alloc_Validator.
    unfold Instantiable.RegisterRule at 1. by rewrite lookup_insert_eq.
  - intros σ ctx c params Hctx Herr.
    by apply (Singleton_Check_unregistered _ σ ctx c).
Qed.

(** C9 on the code: on the [Validator] that [New] allocates, whose maps are
    nil, [RegisterRule] and [RegisterType] panic and register nothing.  On
    the package-level tables, and on a [Validator] whose table is
    allocated, the key resolves to what was registered last (a handler is
    stored behind its type assertion and agrees with the one given on the
    values of its type), and other keys are not touched. *)
Theorem registering_on_a_new_Validator_panics :
  (∀ (V : gmap loc (Instantiable.Validator W)) ruleName fnc,
      Instantiable.RegisterRule (fresh (dom V)) ruleName fnc
        (Instantiable.alloc_Validator V).2
      = (Panic nil_map_assignment, (Instantiable.alloc_Validator V).2))
  ∧ (∀ (V : gmap loc (Instantiable.Validator W)) T handler,
      Instantiable.RegisterType T (fresh (dom V)) handler
        (Instantiable.alloc_Validator V).2
      = (Panic nil_map_assignment, (Instantiable.alloc_Validator V).2))
  ∧ (∀ (g : Singleton.Globals W) ruleName fnc,
      Singleton.rules (Singleton.RegisterRule ruleName fnc g).2 !! ruleName
      = Some fnc)
  ∧ (∀ (g : Singleton.Globals W) ruleName fnc fnc',
      Singleton.rules
        (Singleton.RegisterRule ruleName fnc'
           (Singleton.RegisterRule ruleName fnc g).2).2 !! ruleName
      = Some fnc')
  ∧ (∀ (g : Singleton.Globals W) T handler,
      ∃ wrapped : Singleton.HandlerFunc W,
        Singleton.typeHandlers (Singleton.RegisterType T handler g).2 !! T
        = Some wrapped
        ∧ ∀ R a ctx, TypeOf a = Some T → wrapped R a ctx = handler R a ctx)
  ∧ (∀ (V : gmap loc (Instantiable.Validator W)) v val table ruleName fnc,
      V !! v = Some val → Instantiable.rules val = Some table →
      (Instantiable.RegisterRule v ruleName fnc V).1 = Ok ()
      ∧ Instantiable.rule_tables (Instantiable.RegisterRule v ruleName fnc V).2 !! v
        = Some (Some (<[ruleName := fnc]> table))
      ∧ <[ruleName := fnc]> table !! ruleName = Some fnc).
Proof.
  split; [|split; [|split; [|split; [|split]]]].
  - intros V ruleName fnc. unfold Instantiable.alloc_Validator, Instantiable.RegisterRule.
    simpl. by rewrite lookup_insert_eq.
  - intros V T handler. unfold Instantiable.alloc_Validator, Instantiable.RegisterType.
    simpl. by rewrite lookup_insert_eq.
  - apply Singleton_resolve_rule.
  - intros g ruleName fnc fnc'. apply Singleton_resolve_rule.
  - apply Singleton_resolve_type.
  - apply Instantiable_resolve_rule.
Qed.
End Registries.


(** * Further properties *)

(** ** The comparison rules on operands of every kind *)

Lemma reduce_returns (with_map : bool) (a : any) : ∃ r, reduce with_map a = Ok r.
Proof.
  destruct a as [|T s|T [] n|T [] n|T [] f|T xs|T xs|T kvs|T fs|T []], with_map;
    simpl; eauto.
Qed.

Lemma greaterThan_loop_returns (m : float64) (ops : list any) :
  ∀ i, ∃ r, greaterThan_loop m i ops = Ok r.
Proof.
  induction ops as [|a ops IH]; intros i; simpl; [eauto|].
  destruct (reduce_returns false a) as [[v|] ->]; cbn [mbind outcome_bind]; [|eauto].
  destruct (f64_le v m); eauto.
Qed.

Lemma lessThan_loop_returns (m : float64) (ops : list any) :
  ∀ i, ∃ r, lessThan_loop m i ops = Ok r.
Proof.
  induction ops as [|a ops IH]; intros i; simpl; [eauto|].
  destruct (reduce_returns false a) as [[v|] ->]; cbn [mbind outcome_bind]; [|eauto].
  destruct (f64_ge v m); eauto.
Qed.

(** X1: [greaterThan] and [lessThan] panic exactly when they are given fewer
    than two operands; with two or more they return, nil or an error,
    whatever the kinds of the operands. *)
Theorem comparison_rules_panic_only_on_arity (params : list any) :
  ((∃ v, greaterThan params = Panic v) ↔ (length params < 2)%nat)
  ∧ ((∃ v, lessThan params = Panic v) ↔ (length params < 2)%nat).
Proof.
  destruct params as [|c [|a rest]]; simpl.
  - split; (split; [lia|eauto]).
  - split; (split; [lia|eauto]).
  - split; (split; [|lia]); intros [v Hv]; exfalso; revert Hv.
    + destruct (reduce_returns true c) as [[m|] ->]; cbn [mbind outcome_bind]; [|done].
      change (greaterThan_loop m 0 (a :: rest) = Panic v → False).
      by destruct (greaterThan_loop_returns m (a :: rest) 0) as [r ->].
    + destruct (reduce_returns false c) as [[m|] ->]; cbn [mbind outcome_bind]; [|done].
      change (lessThan_loop m 0 (a :: rest) = Panic v → False).
      by destruct (lessThan_loop_returns m (a :: rest) 0) as [r ->].
Qed.

Lemma lessThan_loop_passes (m : float64) (ops : list any) (vs : list float64) :
  magnitudes ops vs →
  ∀ i, lessThan_loop m i ops = Ok None ↔ Forall (fun v => f64_ge v m = false) vs.
Proof.
  induction 1 as [|a v ops vs Ha _ IH]; intros i; simpl.
  - split; [constructor|done].
  - rewrite Ha. cbn [mbind outcome_bind]. rewrite Forall_cons.
    destruct (f64_ge v m); [|rewrite IH]; intuition congruence.
Qed.

Lemma lessThan_cons (c : any) (ops : list any) (m : float64) :
  ops ≠ [] → reduce false c = Ok (Some m) →
  lessThan (c :: ops) = lessThan_loop m 0 ops.
Proof.
  intros Hops Hc. destruct ops as [|a ops]; [done|].
  unfold lessThan. rewrite Hc. reflexivity.
Qed.

Lemma greaterThan_loop_prefix (m : float64) (pre : list any) (vs : list float64) :
  magnitudes pre vs → Forall (fun v => f64_le v m = false) vs →
  ∀ i rest,
    greaterThan_loop m i (pre ++ rest)
    = greaterThan_loop m (i + Z.of_nat (length pre)) rest.
Proof.
  induction 1 as [|a v pre vs Ha _ IH]; intros Hvs i rest.
  - simpl. by rewrite Z.add_0_r.
  - apply Forall_cons in Hvs as [Hv Hvs]. cbn [app greaterThan_loop].
    rewrite Ha. cbn [mbind outcome_bind]. rewrite Hv, (IH Hvs).
    f_equal. simpl length. lia.
Qed.

Lemma lessThan_loop_prefix (m : float64) (pre : list any) (vs : list float64) :
  magnitudes pre vs → Forall (fun v => f64_ge v m = false) vs →
  ∀ i rest,
    lessThan_loop m i (pre ++ rest)
    = lessThan_loop m (i + Z.of_nat (length pre)) rest.
Proof.
  induction 1 as [|a v pre vs Ha _ IH]; intros Hvs i rest.
  - simpl. by rewrite Z.add_0_r.
  - apply Forall_cons in Hvs as [Hv Hvs]. cbn [app lessThan_loop].
    rewrite Ha. cbn [mbind outcome_bind]. rewrite Hv, (IH Hvs).
    f_equal. simpl length. lia.
Qed.

(** X2: with a supported comparer of magnitude [m] and supported operands of
    magnitudes [vs], [lessThan] passes exactly when no operand is greater
    than or equal to the comparer as [float64] compares them; when no
    magnitude is NaN, that is exactly when every operand is strictly less.
    So [lessThan(5, 4)] passes, and [lessThan(5, 5)] and [lessThan(5, 6)]
    fail with the error that cites position 2 and both values. *)
Theorem lessThan_strictly_less (c : any) (ops : list any) (m : float64)
    (vs : list float64) :
  ops ≠ [] →
  reduce false c = Ok (Some m) →
  magnitudes ops vs →
  (lessThan (c :: ops) = Ok None ↔ Forall (fun v => f64_ge v m = false) vs)
  ∧ (is_nan m = false → Forall (fun v => is_nan v = false) vs →
     (lessThan (c :: ops) = Ok None ↔ Forall (fun v => f64_lt v m = true) vs))
  ∧ lessThan [int 5; int 4] = Ok None
  ∧ lessThan [int 5; int 5] = Ok (Some (not_less 2 (float64_of_Z 5) (float64_of_Z 5)))
  ∧ lessThan [int 5; int 6] = Ok (Some (not_less 2 (float64_of_Z 6) (float64_of_Z 5))).
Proof.
  intros Hops Hc Hvs. rewrite (lessThan_cons c ops m Hops Hc).
  split; [by apply lessThan_loop_passes|]. split; [|by repeat split].
  intros Hm Hnan. rewrite (lessThan_loop_passes m ops vs Hvs 0).
  rewrite !Forall_forall. rewrite Forall_forall in Hnan.
  split; intros Hall v Hv.
  - specialize (Hall v Hv). rewrite f64_ge_not_lt in Hall by auto.
    by apply negb_false_iff.
  - rewrite f64_ge_not_lt by auto. by rewrite (Hall v Hv).
Qed.

Lemma lessThan_strictly_less_witness :
  lessThan [str "abc"; str "ab"; int 1] = Ok None
  ↔ Forall (fun v => f64_ge v (float64_of_Z 3) = false) [float64_of_Z 2; float64_of_Z 1].
Proof.
  apply (lessThan_strictly_less (str "abc") [str "ab"; int 1]
           (float64_of_Z 3) [float64_of_Z 2; float64_of_Z 1]).
  - discriminate.
  - reflexivity.
  - repeat constructor.
Defined.

(** X3: the comparison rules stop at the first operand that offends: after
    operands that pass, an operand of an unsupported kind yields the error
    that cites its type and its position, and a supported operand that fails
    the comparison yields the error that cites its position and both
    values; the operands after it are not looked at, whatever they are. *)
Theorem comparison_rules_stop_at_first_offender (c : any) (m : float64)
    (pre : list any) (vs : list float64) (a : any) (post : list any) :
  magnitudes pre vs →
  (reduce true c = Ok (Some m) → Forall (fun v => f64_le v m = false) vs →
     (reduce false a = Ok None →
        greaterThan (c :: pre ++ a :: post)
        = Ok (Some (unsupported_operand "greaterThan" a (Z.of_nat (length pre) + 2))))
     ∧ (∀ v, reduce false a = Ok (Some v) → f64_le v m = true →
        greaterThan (c :: pre ++ a :: post)
        = Ok (Some (not_greater (Z.of_nat (length pre) + 2) v m))))
  ∧ (reduce false c = Ok (Some m) → Forall (fun v => f64_ge v m = false) vs →
     (reduce false a = Ok None →
        lessThan (c :: pre ++ a :: post)
        = Ok (Some (unsupported_operand "lessThan" a (Z.of_nat (length pre) + 2))))
     ∧ (∀ v, reduce false a = Ok (Some v) → f64_ge v m = true →
        lessThan (c :: pre ++ a :: post)
        = Ok (Some (not_less (Z.of_nat (length pre) + 2) v m)))).
Proof.
  intros Hpre. split; intros Hc Hvs.
  - rewrite (greaterThan_cons c _ m) by (by destruct pre).
    rewrite (greaterThan_loop_prefix m pre vs Hpre Hvs 0 (a :: post)).
    split; [intros Ha|intros v Ha Hv]; simpl; rewrite Ha; cbn [mbind outcome_bind];
      [|rewrite Hv]; reflexivity.
  - rewrite (lessThan_cons c _ m) by (by destruct pre).
    rewrite (lessThan_loop_prefix m pre vs Hpre Hvs 0 (a :: post)).
    split; [intros Ha|intros v Ha Hv]; simpl; rewrite Ha; cbn [mbind outcome_bind];
      [|rewrite Hv]; reflexivity.
Qed.

(** [greaterThan(1, 2, true, "x")]: the boolean at position 3 is reported
    and the string after it plays no part. *)
Lemma comparison_rules_stop_at_first_offender_witness :
  greaterThan [int 1; int 2; VOther (mk_rtype "bool" "bool") KBool; str "x"]
  = Ok (Some (unsupported_operand "greaterThan"
                (VOther (mk_rtype "bool" "bool") KBool) 3)).
Proof.
  apply (proj1 (proj1 (comparison_rules_stop_at_first_offender (int 1) (float64_of_Z 1)
           [int 2] [float64_of_Z 2] (VOther (mk_rtype "bool" "bool") KBool) [str "x"]
           ltac:(repeat constructor)) eq_refl ltac:(repeat constructor)) eq_refl).
Defined.

(** X4: a comparer of an unsupported kind is a validation error that cites
    its type, not a panic.  A map is a supported comparer of [greaterThan],
    by its number of entries, and an unsupported comparer of [lessThan]; as
    a compared operand a map is unsupported in both rules. *)
Theorem comparison_rules_on_maps_and_unsupported_comparers :
  (∀ c a rest, reduce true c = Ok None →
      greaterThan (c :: a :: rest) = Ok (Some (unsupported_comparer "greaterThan" c)))
  ∧ (∀ c a rest, reduce false c = Ok None →
      lessThan (c :: a :: rest) = Ok (Some (unsupported_comparer "lessThan" c)))
  ∧ (∀ T entries a rest,
      greaterThan (VMap T entries :: a :: rest)
      = greaterThan_loop (float64_of_Z (Z.of_nat (length entries))) 0 (a :: rest))
  ∧ (∀ T entries a rest,
      lessThan (VMap T entries :: a :: rest)
      = Ok (Some (unsupported_comparer "lessThan" (VMap T entries))))
  ∧ (∀ T entries, reduce false (VMap T entries) = Ok None)
  ∧ (∀ c, reduce true c = Ok None ↔
      Kind_of c ∈ [reflect.Invalid; reflect.Bool; reflect.Complex64; reflect.Complex128;
                   reflect.Chan; reflect.Func; reflect.Pointer; reflect.Struct;
                   reflect.UnsafePointer]).
Proof.
  split; [|split; [|split; [|split; [|split]]]]; try done.
  - intros c a rest Hc. simpl. by rewrite Hc.
  - intros c a rest Hc. simpl. by rewrite Hc.
  - intros c.
    destruct c as [|T s|T [] n|T [] n|T [] f|T xs|T xs|T kvs|T fs|T []]; simpl;
      (split; [intros H; try discriminate H; by apply (bool_decide_unpack _)
              | intros H; try done; by apply (bool_decide_pack _) in H]).
Qed.

(** ** The comparison rules on integers that [float64] holds exactly *)

Lemma digits2_size (p : positive) : digits2_pos p = Pos.size p.
Proof. induction p; simpl; congruence. Qed.

Lemma size_iter_xO (p k : positive) : Pos.size (Pos.iter xO p k) = (Pos.size p + k)%positive.
Proof.
  induction k using Pos.peano_ind.
  - simpl. lia.
  - rewrite Pos.iter_succ. simpl. rewrite IHk. lia.
Qed.

Lemma iter_xO_mul (p k : positive) : Z.pos (Pos.iter xO p k) = Z.pos p * 2 ^ Z.pos k.
Proof.
  induction k using Pos.peano_ind.
  - simpl. lia.
  - rewrite Pos.iter_succ, Pos2Z.inj_xO, IHk, Pos2Z.inj_succ, Z.pow_succ_r by lia. lia.
Qed.

Lemma round_normal (sx : bool) (m : positive) (e : Z) :
  Pos.size m = 53%positive → -1074 <= e <= 971 →
  binary_round_aux 53 1024 sx (Z.pos m) e loc_Exact = S754_finite sx m e.
Proof.
  intros Hm He.
  assert (Hf : fexp 53 1024 (53 + e) - e = 0).
  { unfold fexp, emin. lia. }
  unfold binary_round_aux, shr_fexp, Zdigits2. rewrite digits2_size, Hm.
  cbn [shr_record_of_loc]. rewrite Hf. cbn [shr shr_m loc_of_shr_record round_nearest_even].
  unfold Zdigits2. rewrite digits2_size, Hm. rewrite Hf. cbn [shr shr_m shr_record_of_loc].
  destruct (Z.leb_spec e (1024 - 53)); [reflexivity|lia].
Qed.

Lemma size_bound (p : positive) : Z.pos p < 2 ^ 53 → (Pos.size p <= 53)%positive.
Proof.
  intros Hp. destruct (Pos.leb_spec (Pos.size p) 53) as [|Hlt]; [done|].
  pose proof (Pos.size_le p) as Hle.
  assert (2 ^ 54 <= 2 ^ Z.pos (Pos.size p)) by (apply Z.pow_le_mono_r; lia).
  assert (Z.pos (2 ^ Pos.size p) <= Z.pos p~0) by lia.
  rewrite Pos2Z.inj_pow in *. lia.
Qed.

Lemma round_small (sx : bool) (p : positive) :
  Z.pos p < 2 ^ 53 →
  ∃ m, binary_round 53 1024 sx p 0 = S754_finite sx m (Z.pos (Pos.size p) - 53)
       ∧ Z.pos m = Z.pos p * 2 ^ (53 - Z.pos (Pos.size p)).
Proof.
  intros Hp. apply size_bound in Hp.
  unfold binary_round. rewrite digits2_size.
  assert (Hf : fexp 53 1024 (Z.pos (Pos.size p) + 0) = Z.pos (Pos.size p) - 53).
  { unfold fexp, emin. lia. }
  rewrite Hf. unfold shl_align.
  destruct (Z.pos (Pos.size p) - 53 - 0) as [|k|k] eqn:Hk; try lia.
  - exists p. split.
    + replace (Z.pos (Pos.size p) - 53) with 0 by lia.
      rewrite round_normal; [reflexivity| lia | lia].
    + replace (53 - Z.pos (Pos.size p)) with 0 by lia. lia.
  - exists (Pos.iter xO p k). split.
    + rewrite round_normal; [reflexivity| rewrite size_iter_xO; lia | lia].
    + rewrite iter_xO_mul. f_equal. f_equal. lia.
Qed.

Lemma float64_of_Z_small (n : Z) :
  Z.abs n < 2 ^ 53 →
  match n with
  | 0 => float64_of_Z n = S754_zero false
  | Z.pos p | Z.neg p =>
    ∃ m, float64_of_Z n = S754_finite (bool_decide (n < 0)) m (Z.pos (Pos.size p) - 53)
         ∧ Z.pos m = Z.pos p * 2 ^ (53 - Z.pos (Pos.size p))
  end.
Proof.
  intros Hn. destruct n as [|p|p]; [reflexivity| |].
  - apply (round_small false p). lia.
  - apply (round_small true p). lia.
Qed.

Lemma compare_small (p q mp mq : positive) :
  Z.pos p < 2 ^ 53 → Z.pos q < 2 ^ 53 →
  Z.pos mp = Z.pos p * 2 ^ (53 - Z.pos (Pos.size p)) →
  Z.pos mq = Z.pos q * 2 ^ (53 - Z.pos (Pos.size q)) →
  match Z.pos (Pos.size p) - 53 ?= Z.pos (Pos.size q) - 53 with
  | Lt => Lt
  | Gt => Gt
  | Eq => Pos.compare_cont Eq mp mq
  end = (p ?= q)%positive.
Proof.
  intros Hp Hq Hmp Hmq. change (p ?= q)%positive with (Z.pos p ?= Z.pos q).
  pose proof (Pos.size_gt p) as Hgp. pose proof (Pos.size_le p) as Hlp.
  pose proof (Pos.size_gt q) as Hgq. pose proof (Pos.size_le q) as Hlq.
  apply Pos2Z.pos_lt_pos in Hgp, Hgq. apply Pos2Z.pos_le_pos in Hlp, Hlq.
  rewrite Pos2Z.inj_pow in Hgp, Hlp, Hgq, Hlq.
  set (dp := Z.pos (Pos.size p)) in *. set (dq := Z.pos (Pos.size q)) in *.
  assert (0 < dp) by (unfold dp; lia). assert (0 < dq) by (unfold dq; lia).
  destruct (Z.compare_spec (dp - 53) (dq - 53)) as [Heq|Hlt|Hgt].
  - assert (dp = dq) as Hd by lia. rewrite Hd in Hmp.
    change (Pos.compare_cont Eq mp mq) with (Z.pos mp ?= Z.pos mq).
    rewrite Hmp, Hmq. symmetry. apply Zmult_compare_compat_r.
    apply size_bound in Hq. apply Z.lt_gt, Z.pow_pos_nonneg; unfold dq; lia.
  - symmetry. apply Z.compare_lt_iff.
    assert (2 ^ dp <= 2 ^ (dq - 1)) by (apply Z.pow_le_mono_r; lia).
    replace (2 ^ dq) with (2 * 2 ^ (dq - 1)) in Hlq
      by (rewrite <- Z.pow_succ_r by lia; f_equal; lia).
    lia.
  - symmetry. apply Z.compare_gt_iff.
    assert (2 ^ dq <= 2 ^ (dp - 1)) by (apply Z.pow_le_mono_r; lia).
    replace (2 ^ dp) with (2 * 2 ^ (dp - 1)) in Hlp
      by (rewrite <- Z.pow_succ_r by lia; f_equal; lia).
    lia.
Qed.

Lemma SFcompare_small (a b : Z) :
  Z.abs a < 2 ^ 53 → Z.abs b < 2 ^ 53 →
  SFcompare (float64_of_Z a) (float64_of_Z b) = Some (a ?= b).
Proof.
  intros Ha Hb.
  pose proof (float64_of_Z_small a Ha) as Fa.
  pose proof (float64_of_Z_small b Hb) as Fb.
  destruct a as [|p|p], b as [|q|q];
    repeat match goal with
           | H : ∃ _, _ |- _ => destruct H as (? & -> & ?)
           | H : float64_of_Z _ = _ |- _ => rewrite H
           end; try reflexivity.
  - assert (Z.pos p < 2 ^ 53) by lia. assert (Z.pos q < 2 ^ 53) by lia.
    simpl. f_equal. by apply compare_small.
  - assert (Z.pos p < 2 ^ 53) as Hp by lia. assert (Z.pos q < 2 ^ 53) as Hq by lia.
    simpl. f_equal. erewrite <- (compare_small p q _ _ Hp Hq) by eassumption.
    destruct (Z.pos (Pos.size p) - 53 ?= Z.pos (Pos.size q) - 53); reflexivity.
Qed.

Lemma f64_le_small (a b : Z) :
  Z.abs a < 2 ^ 53 → Z.abs b < 2 ^ 53 →
  f64_le (float64_of_Z a) (float64_of_Z b) = (a <=? b).
Proof.
  intros Ha Hb. unfold f64_le, SFleb. rewrite SFcompare_small by done.
  unfold Z.leb. by destruct (a ?= b).
Qed.

Lemma reduce_with_map (c : any) (m : float64) :
  reduce false c = Ok (Some m) → reduce true c = Ok (Some m).
Proof.
  by destruct c as [|T s|T [] n|T [] n|T [] f|T xs|T xs|T kvs|T fs|T []].
Qed.

(** X5: on integers of magnitude below 2^53 (and on lengths, which are such
    integers) the comparison rules are exact: with a comparer of value [a]
    and operands of values [ns], [greaterThan] passes exactly when every
    operand is greater than [a] as an integer, and [lessThan] exactly when
    every operand is less than [a]. *)
Theorem comparison_rules_exact_below_2_53 (c : any) (ops : list any) (a : Z)
    (ns : list Z) :
  ops ≠ [] →
  reduce false c = Ok (Some (float64_of_Z a)) →
  magnitudes ops (float64_of_Z <$> ns) →
  Z.abs a < 2 ^ 53 →
  Forall (fun n => Z.abs n < 2 ^ 53) ns →
  (greaterThan (c :: ops) = Ok None ↔ Forall (fun n => a < n) ns)
  ∧ (lessThan (c :: ops) = Ok None ↔ Forall (fun n => n < a) ns).
Proof.
  intros Hops Hc Hns Ha Hbound.
  rewrite (greaterThan_cons c ops _ Hops (reduce_with_map c _ Hc)).
  rewrite (lessThan_cons c ops _ Hops Hc).
  rewrite (greaterThan_loop_passes _ ops _ Hns 0), (lessThan_loop_passes _ ops _ Hns 0).
  rewrite !Forall_fmap, !Forall_forall. rewrite Forall_forall in Hbound.
  split; split; intros Hall n Hn; specialize (Hall n Hn); specialize (Hbound n Hn);
    simpl in *; unfold f64_ge in *; rewrite f64_le_small in * by done; lia.
Qed.

Lemma comparison_rules_exact_below_2_53_witness :
  (greaterThan [int 5; str "abcdefg"; int64 (2 ^ 53 - 1)] = Ok None
   ↔ Forall (fun n => 5 < n) [7; 2 ^ 53 - 1])
  ∧ (lessThan [int 5; str "abcdefg"; int64 (2 ^ 53 - 1)] = Ok None
     ↔ Forall (fun n => n < 5) [7; 2 ^ 53 - 1]).
Proof.
  apply (comparison_rules_exact_below_2_53 (int 5) [str "abcdefg"; int64 (2 ^ 53 - 1)]
           5 [7; 2 ^ 53 - 1]).
  - discriminate.
  - reflexivity.
  - repeat constructor.
  - by vm_compute.
  - repeat constructor; by vm_compute.
Defined.

Lemma reduce_without_map (x : any) :
  Kind_of x ≠ reflect.Map → reduce true x = reduce false x.
Proof.
  by destruct x as [|T s|T [] n|T [] n|T [] f|T xs|T xs|T kvs|T fs|T []].
Qed.

(** X6: [lessThan(c, x)] passes exactly when [greaterThan(x, c)] does,
    for every [x] that is not a map (a map is a comparer [greaterThan]
    accepts and an operand [lessThan] refuses). *)
Theorem lessThan_is_greaterThan_swapped (c x : any) :
  Kind_of x ≠ reflect.Map →
  lessThan [c; x] = Ok None ↔ greaterThan [x; c] = Ok None.
Proof.
  intros Hx. unfold lessThan, greaterThan. rewrite (reduce_without_map x Hx).
  destruct (reduce_returns false c) as [[mc|] Hc], (reduce_returns false x) as [[mx|] Hx'];
    simpl; rewrite Hc, Hx'; cbn [mbind outcome_bind]; try done.
  unfold f64_ge, f64_le. by destruct (SFleb mc mx).
Qed.

Lemma lessThan_is_greaterThan_swapped_witness :
  lessThan [int 5; str "ab"] = Ok None ↔ greaterThan [str "ab"; int 5] = Ok None.
Proof. apply lessThan_is_greaterThan_swapped. discriminate. Defined.

(** ** What [strings.TrimSpace] empties, and the [notEmpty] rules in general *)

Lemma length_substring (s : string) :
  ∀ n m, String.length (substring n m s) = Nat.min m (String.length s - n).
Proof.
  induction s as [|c s IH]; intros [|n] [|m]; cbn [substring String.length];
    rewrite ?IH; lia.
Qed.

Lemma length_bytes (s : string) : length (bytes s) = String.length s.
Proof.
  unfold bytes. rewrite length_map. induction s; simpl; congruence.
Qed.

Lemma DecodeRune_size (b : Z) (t : list Z) :
  (1 ≤ (DecodeRune (b :: t)).2 ≤ S (length t))%nat.
Proof.
  unfold DecodeRune. destruct (b <? 128); [simpl; lia|].
  destruct (first b) as [[sz lo] hi].
  destruct sz as [|[|[|[|[|sz]]]]], t as [|b1 [|b2 [|b3 t]]]; simpl;
    repeat match goal with |- context [if ?c then _ else _] => destruct c end;
    simpl; lia.
Qed.

Lemma decode_width (p : list Z) :
  ∀ skip, (skip ≤ length p)%nat → (width (decode skip p) + skip = length p)%nat.
Proof.
  induction p as [|b t IH]; intros skip Hskip; cbn [decode length] in *;
    [unfold width; simpl; lia|].
  destruct skip as [|k].
  - pose proof (DecodeRune_size b t) as Hsz.
    destruct (DecodeRune (b :: t)) as [r sz]. cbn [snd] in Hsz.
    specialize (IH (sz - 1)%nat). unfold width in *. cbn [foldr snd]. lia.
  - specialize (IH k). lia.
Qed.

Lemma decode_positive (p : list Z) :
  ∀ skip, Forall (fun r => (1 ≤ r.2)%nat) (decode skip p).
Proof.
  induction p as [|b t IH]; intros skip; cbn [decode]; [constructor|].
  destruct skip as [|k]; [|apply IH].
  pose proof (DecodeRune_size b t) as Hsz.
  destruct (DecodeRune (b :: t)) as [r sz]. constructor; [simpl in *; lia|apply IH].
Qed.

Lemma width_zero (rs : list (Z * nat)) :
  Forall (fun r => (1 ≤ r.2)%nat) rs → width rs = 0%nat → rs = [].
Proof. destruct 1 as [|r rs Hr _]; [done|]. unfold width. simpl. lia. Qed.

Lemma drop_spaces_nil (rs : list (Z * nat)) :
  drop_spaces rs = [] ↔ Forall (fun r => IsSpace r.1 = true) rs.
Proof.
  induction rs as [|[r sz] rs IH]; simpl.
  - split; [constructor|done].
  - rewrite Forall_cons. simpl. destruct (IsSpace r); [rewrite IH|]; intuition congruence.
Qed.

Lemma drop_spaces_positive (rs : list (Z * nat)) :
  Forall (fun r => (1 ≤ r.2)%nat) rs → Forall (fun r => (1 ≤ r.2)%nat) (drop_spaces rs).
Proof.
  induction 1 as [|[r sz] rs Hr Hrs IH]; simpl; [constructor|].
  destruct (IsSpace r); [done|by constructor].
Qed.

Lemma drop_spaces_head (rs : list (Z * nat)) :
  Forall (fun r => IsSpace r.1 = true) (drop_spaces rs) → drop_spaces rs = [].
Proof.
  induction rs as [|[r sz] rs IH]; simpl; [done|].
  destruct (IsSpace r) eqn:Hr; [done|].
  intros [Hr' _]%Forall_cons. simpl in Hr'. congruence.
Qed.

Lemma drop_spaces_width (rs : list (Z * nat)) :
  (width (drop_spaces rs) ≤ width rs)%nat.
Proof.
  induction rs as [|[r sz] rs IH]; simpl; [done|].
  destruct (IsSpace r); [|done]. unfold width in *. simpl. lia.
Qed.

Lemma blank_iff_all_spaces (s : string) :
  blank s = true ↔ Forall (fun r => IsSpace r = true) (runes s).
Proof.
  unfold blank, len, TrimSpace, runes. rewrite Z.eqb_eq, length_substring.
  set (rs := decode 0 (bytes s)).
  assert (Hpos : Forall (fun r => (1 ≤ r.2)%nat) rs) by apply decode_positive.
  assert (Hw : width rs = String.length s).
  { pose proof (decode_width (bytes s) 0) as H. rewrite length_bytes in H.
    fold rs in H. lia. }
  rewrite Forall_fmap. change (Forall _ rs) with (Forall (fun r => IsSpace r.1 = true) rs).
  rewrite <- drop_spaces_nil.
  set (rs1 := drop_spaces rs).
  assert (Hpos1 : Forall (fun r => (1 ≤ r.2)%nat) rs1) by by apply drop_spaces_positive.
  set (rs2 := rev (drop_spaces (rev rs1))).
  assert (Hpos2 : Forall (fun r => (1 ≤ r.2)%nat) rs2).
  { unfold rs2. apply Forall_rev, drop_spaces_positive. by apply Forall_rev. }
  split.
  - intros Hlen.
    assert (rs2 = [] ∨ rs1 = []) as [H2|H1].
    { destruct (decide (width rs2 = 0%nat)) as [H0|H0]; [left; by apply width_zero|].
      right. apply width_zero; [done|].
      pose proof (drop_spaces_width rs) as Hle. fold rs1 in Hle. lia. }
    + unfold rs2 in H2. apply (f_equal (@rev _)) in H2. rewrite rev_involutive in H2.
      simpl in H2. apply drop_spaces_nil, Forall_rev in H2. rewrite rev_involutive in H2.
      by apply drop_spaces_head.
    + done.
  - intros H1. unfold rs2. fold rs1 in H1. rewrite H1. simpl. lia.
Qed.

Lemma some_rune_not_space (rs : list Z) :
  Exists (fun r => IsSpace r = false) rs ↔ ¬ Forall (fun r => IsSpace r = true) rs.
Proof.
  induction rs as [|r rs IH].
  - split; [by intros ?%Exists_nil|intros H; destruct H; constructor].
  - rewrite Exists_cons, Forall_cons, IH. destruct (IsSpace r); intuition congruence.
Qed.

Lemma has_content_string (T : rtype) (s : string) :
  has_content (VString T s) = true ↔ Exists (fun r => IsSpace r = false) (runes s).
Proof.
  simpl. rewrite negb_true_iff, <- not_true_iff_false, blank_iff_all_spaces.
  by rewrite some_rune_not_space.
Qed.

Lemma notEmpty_New_step (p : any) (rest : list any) :
  named_string p = false →
  notEmpty_New (p :: rest)
  = if has_content p then notEmpty_New rest
    else Ok (Some (errors_New "required rule failed")).
Proof.
  intros Hp.
  destruct p as [|T s|T [] n|T [] n|T [] f|T xs|T xs|T kvs|T fs|T []]; try done.
  - simpl in Hp. apply negb_false_iff, bool_decide_eq_true in Hp as ->.
    change (VString string_type s) with (str s).
    rewrite (notEmpty_New_str s rest). unfold str, has_content, blank.
    by destruct (len (TrimSpace s) =? 0).
  - by destruct xs.
  - by destruct xs.
  - by destruct kvs.
Qed.

(** X7: the [notEmpty] rule of [New], on operands none of which is of a
    defined string type, passes exactly when every operand has content: a
    string with a rune that is not white space, or an array, slice or map
    with an element; operands of every other kind have none.  Otherwise it
    returns its one error; it does not panic.  No operand at all passes. *)
Theorem notEmpty_New_passes_iff (params : list any) :
  Forall (fun p => named_string p = false) params →
  (notEmpty_New params = Ok None ↔ Forall (fun p => has_content p = true) params)
  ∧ (notEmpty_New params = Ok None
     ∨ notEmpty_New params = Ok (Some (errors_New "required rule failed")))
  ∧ (∀ T s, has_content (VString T s) = true
            ↔ Exists (fun r => IsSpace r = false) (runes s))
  ∧ notEmpty_New [] = Ok None.
Proof.
  intros Hparams. split; [|split; [|split; [apply has_content_string|done]]].
  - induction Hparams as [|p rest Hp _ IH]; [split; [constructor|done]|].
    rewrite (notEmpty_New_step p rest Hp), Forall_cons.
    destruct (has_content p); [rewrite IH|]; intuition congruence.
  - induction Hparams as [|p rest Hp _ IH]; [by left|].
    rewrite (notEmpty_New_step p rest Hp). destruct (has_content p); auto.
Qed.

(** A name, a list of one, and a string of one no-break space (U+00A0, the
    bytes C2 A0): the third operand has no content. *)
Lemma notEmpty_New_passes_iff_witness :
  notEmpty_New [str "a"; ints [1]; str (String "194" (String "160" EmptyString))]
  = Ok (Some (errors_New "required rule failed"))
  ∧ (notEmpty_New [str "a"; ints [1]] = Ok None
     ↔ Forall (fun p => has_content p = true) [str "a"; ints [1]]).
Proof.
  split; [reflexivity|].
  apply (notEmpty_New_passes_iff [str "a"; ints [1]]). by repeat constructor.
Defined.

(** X8: the [notEmpty] rule of [New] panics on an operand of a defined type
    whose underlying type is string, once the operands before it have
    passed: the kind is String and the assertion [p.(string)] fails, with
    the runtime's type-assertion error, whose text names the operand's type.
    The rule of [Init] skips such an operand. *)
Theorem notEmpty_New_panics_on_defined_string_type (pre : list any) (T : rtype)
    (s : string) (post : list any) :
  Forall (fun p => named_string p = false ∧ has_content p = true) pre →
  type_string T ≠ "string" →
  notEmpty_New (pre ++ VString T s :: post)
  = Panic (Lit ("interface conversion: interface {} is " +:+ type_string T
                +:+ ", not string"))
  ∧ notEmpty_Init (VString T s :: post) = notEmpty_Init post.
Proof.
  intros Hpre HT.
  assert (T ≠ string_type) as HT' by (intros ->; by apply HT).
  split.
  - induction Hpre as [|p pre [Hn Hc] _ IH].
    + simpl. by rewrite decide_False.
    + cbn [app]. by rewrite (notEmpty_New_step p _ Hn), Hc.
  - simpl. by rewrite decide_False.
Qed.

Lemma notEmpty_New_panics_on_defined_string_type_witness :
  notEmpty_New [str "a"; VString (mk_rtype "main.Name" "Name") "Al"]
  = Panic (Lit "interface conversion: interface {} is main.Name, not string")
  ∧ notEmpty_Init [VString (mk_rtype "main.Name" "Name") "Al"] = notEmpty_Init [].
Proof.
  apply (notEmpty_New_panics_on_defined_string_type [str "a"]
           (mk_rtype "main.Name" "Name") "Al" []).
  - by repeat constructor.
  - discriminate.
Defined.

(** X9: the [notEmpty] rule of [Init] passes exactly when none of its
    operands of type string is blank, that is, made of white space only (or
    empty); operands of every other type play no part.  It returns nil or
    its one error and never panics. *)
Theorem notEmpty_Init_passes_iff :
  (∀ params,
      notEmpty_Init params = Ok None
      ↔ Forall (fun p => ∀ s, assert_string p = Some s → blank s = false) params)
  ∧ (∀ params,
      notEmpty_Init params = Ok None
      ∨ notEmpty_Init params = Ok (Some (errors_New "rule required failed")))
  ∧ (∀ s, blank s = true ↔ Forall (fun r => IsSpace r = true) (runes s)).
Proof.
  split; [|split; [|apply blank_iff_all_spaces]].
  - induction params as [|p rest IH]; [split; [constructor|done]|].
    rewrite Forall_cons, <- IH. cbn [notEmpty_Init].
    destruct (assert_string p) as [s|]; [|intuition congruence].
    fold (blank s). destruct (blank s) eqn:Hb.
    + split; [done|]. intros [Hs _]. specialize (Hs s eq_refl). congruence.
    + intuition congruence.
  - induction params as [|p rest IH]; [by left|]. cbn [notEmpty_Init].
    destruct (assert_string p) as [s|]; [|done].
    destruct (len (TrimSpace s) =? 0); auto.
Qed.


(** ** Calls on a context, one after the other *)

Section Calls.
Context {W : Type}.

(** X10: [Must] against [MustErr] of the predicate read as a function that
    returns "rule failed" when the predicate is false.  [MustErr] always
    assigns what the function returns, [Must] assigns only when the
    predicate is false; so the two calls have the same outcome and leave the
    same state exactly when the predicate, where the engine runs it and it
    holds, leaves the context without error.  That is so of every predicate
    that leaves the contexts alone.  It is not of a predicate that runs a
    failing check on its own context and holds: [Must] keeps the error of
    that check, [MustErr] clears it. *)
Theorem Must_against_MustErr (ctx : loc) :
  (∀ (fnc : M (Singleton.State W) bool) σ,
      Singleton.Must ctx fnc σ = Singleton.MustErr ctx (failing_as_error fnc) σ
      ↔ (∀ c σ', Singleton.ctxs σ !! ctx = Some c → Singleton.err c = None →
           fnc σ = (Ok true, σ') →
           Singleton.ctxs σ' !! ctx = Some (Singleton.mk_ctx None)))
  ∧ (∀ (f : M W bool) σ,
      Singleton.Must ctx (Singleton.call f) σ
      = Singleton.MustErr ctx (Singleton.call (failing_as_error f)) σ)
  ∧ (∀ (R : gmap string (Singleton.RuleFunc W)) σ,
      Singleton.ctxs σ !! ctx = Some (Singleton.mk_ctx None) →
      R !! "notEmpty" = Some (pure_rule notEmpty_Init) →
      Singleton.Must ctx (checks_its_context R ctx) σ
      = (Ok ctx,
         Singleton.mk_state
           (<[ctx := Singleton.mk_ctx (Some (errors_New "rule required failed"))]>
              (Singleton.ctxs σ))
           (Singleton.world σ))
      ∧ Singleton.MustErr ctx (failing_as_error (checks_its_context R ctx)) σ
        = (Ok ctx, σ)).
Proof.
  split; [|split].
  - intros fnc σ.
    unfold Singleton.Must, Singleton.MustErr, mbind, M_bind, Singleton.load.
    destruct (Singleton.ctxs σ !! ctx) as [[e]|] eqn:Hctx; [|done].
    destruct e as [e|]; cbn [Singleton.err];
      [split; [|done]; by intros _ c σ' [= <-] [=]|].
    unfold failing_as_error.
    destruct (fnc σ) as [[[]|v] σ'] eqn:Hfnc; cbn [negb].
    + unfold Singleton.set_err, mret, M_ret.
      destruct (Singleton.ctxs σ' !! ctx) as [c'|] eqn:Hctx'.
      * split.
        -- intros [= Heq] c σ'' [= <-] _ [= <-]. rewrite Heq.
           cbn [Singleton.ctxs]. apply lookup_insert_eq.
        -- intros H. specialize (H _ _ eq_refl eq_refl eq_refl).
           rewrite insert_id by done. by destruct σ'.
      * split; [by intros [=]|]. intros H. specialize (H _ _ eq_refl eq_refl eq_refl).
        congruence.
    + split; [|done]. by intros _ c σ'' _ _ [=].
    + split; [|done]. by intros _ c σ'' _ _ [=].
  - intros f σ.
    unfold Singleton.Must, Singleton.MustErr, mbind, M_bind, Singleton.load.
    destruct (Singleton.ctxs σ !! ctx) as [[e]|] eqn:Hctx; [|done].
    destruct e as [e|]; cbn [Singleton.err]; [done|].
    unfold Singleton.call, failing_as_error.
    destruct (f (Singleton.world σ)) as [[[]|v] w]; cbn [negb]; [| |done].
    + unfold Singleton.set_err. cbn [Singleton.ctxs]. rewrite Hctx.
      unfold mret, M_ret. cbn [Singleton.world]. by rewrite insert_id.
    + done.
  - intros R σ Hctx HR.
    unfold Singleton.Must, Singleton.MustErr, failing_as_error, checks_its_context,
      Singleton.Check, mbind, M_bind, Singleton.load.
    unfold Singleton.RuleFunc in *. rewrite Hctx. cbn [Singleton.err]. rewrite Hctx.
    cbn [Singleton.err]. rewrite HR.
    unfold Singleton.call, Singleton.set_err, mret, M_ret. simpl. rewrite Hctx. simpl.
    rewrite lookup_insert_eq. split; [done|].
    rewrite insert_insert_eq, insert_id by done. by destruct σ.
Qed.

(** X11: of two [Message] calls in a row the second decides: calling
    [Message] with one text and then with another is the same as calling it
    with the second text alone, in both engines and on every state. *)
Theorem Message_last_text_wins (ctx : loc) (first second : string) :
  (∀ σ : Singleton.State W,
      (ctx' ← Singleton.Message ctx first; Singleton.Message ctx' second) σ
      = Singleton.Message ctx second σ)
  ∧ (∀ σ : Instantiable.State W,
      (ctx' ← Instantiable.Message ctx first; Instantiable.Message ctx' second) σ
      = Instantiable.Message ctx second σ).
Proof.
  split; intros σ.
  - unfold Singleton.Message, mbind, M_bind, Singleton.load, Singleton.set_err.
    destruct (Singleton.ctxs σ !! ctx) as [[[e|]]|] eqn:Hctx; cbn [Singleton.err].
    + rewrite Hctx. unfold mret, M_ret. simpl. rewrite lookup_insert_eq. simpl.
      rewrite lookup_insert_eq. by rewrite insert_insert_eq.
    + unfold mret, M_ret. by rewrite Hctx.
    + done.
  - unfold Instantiable.Message, mbind, M_bind, Instantiable.load, Instantiable.set_err.
    destruct (Instantiable.ctxs σ !! ctx) as [[v [e|]]|] eqn:Hctx; cbn [Instantiable.err].
    + rewrite Hctx. unfold mret, M_ret. simpl. rewrite lookup_insert_eq. simpl.
      rewrite lookup_insert_eq. by rewrite insert_insert_eq.
    + unfold mret, M_ret. by rewrite Hctx.
    + done.
Qed.

(** X12: [Check] followed by [Message] on a context without error, for a
    registered rule: when the rule returns nil the context stays without
    error; when it returns an error, whatever it is, the context holds an
    error with the text given to [Message], and the error of the rule is
    lost; when the rule panics so does the chain, before [Message]. *)
Theorem Check_then_Message (R : gmap string (Singleton.RuleFunc W))
    (σ : Singleton.State W) (ctx : loc) (handlerName : string) (params : list any)
    (rule : Singleton.RuleFunc W) (message : string) :
  Singleton.ctxs σ !! ctx = Some (Singleton.mk_ctx None) →
  R !! handlerName = Some rule →
  (ctx' ← Singleton.Check R ctx handlerName params; Singleton.Message ctx' message) σ
  = match rule params (Singleton.world σ) with
    | (Ok None, w) => (Ok ctx, Singleton.mk_state (Singleton.ctxs σ) w)
    | (Ok (Some _), w) =>
      (Ok ctx,
       Singleton.mk_state
         (<[ctx := Singleton.mk_ctx (Some (errors_New message))]> (Singleton.ctxs σ)) w)
    | (Panic v, w) => (Panic v, Singleton.mk_state (Singleton.ctxs σ) w)
    end.
Proof.
  intros Hctx HR. unfold mbind at 1, M_bind at 1.
  change (Singleton.Check R ctx handlerName params σ)
    with (Singleton.run_call R ctx (Singleton.DoCheck handlerName params) σ).
  rewrite (run_call_verdict R σ ctx (Singleton.DoCheck handlerName params) (rule params)
             Hctx) by (simpl; unfold Singleton.RuleFunc in *; by rewrite HR).
  destruct (rule params (Singleton.world σ)) as [[[e|]|v] w]; [| |done].
  - unfold Singleton.Message, mbind, M_bind, Singleton.load, Singleton.set_err. simpl.
    rewrite lookup_insert_eq. simpl. rewrite lookup_insert_eq.
    by rewrite insert_insert_eq.
  - unfold Singleton.Message, mbind, M_bind, Singleton.load. simpl.
    rewrite lookup_insert_eq. simpl. unfold mret, M_ret. by rewrite insert_id.
Qed.
End Calls.

(** [Check("notEmpty", "")] then [Message("name required")]. *)
Lemma Check_then_Message_witness :
  (ctx' ← Singleton.Check (Singleton.rules counting_rules) 1%positive "notEmpty" [str ""];
   Singleton.Message ctx' "name required") fresh_Singleton
  = (Ok 1%positive,
     Singleton.mk_state
       {[ 1%positive := Singleton.mk_ctx (Some (errors_New "name required")) ]} 0%nat).
Proof.
  rewrite (Check_then_Message (Singleton.rules counting_rules) fresh_Singleton 1%positive
             "notEmpty" [str ""] (pure_rule notEmpty_Init) "name required"
             eq_refl eq_refl).
  reflexivity.
Defined.


(** ** What a call leaves alone *)

Section Frame.
Context {W : Type}.

Lemma only_touches_same {A} (ctx : loc) (m : gmap loc A) : only_touches ctx m m.
Proof. by split. Qed.

Lemma only_touches_insert {A} (ctx : loc) (m : gmap loc A) (x : A) :
  is_Some (m !! ctx) → only_touches ctx m (<[ctx := x]> m).
Proof.
  intros Hctx. split; [by apply dom_insert_lookup_L|].
  intros l Hl. by apply lookup_insert_ne.
Qed.

Ltac innermost_case :=
  match goal with
  | |- context [match ?x with _ => _ end] =>
    lazymatch x with
    | context [match _ with _ => _ end] => fail
    | _ => destruct x eqn:?; simpl
    end
  end.

Ltac frame_cases :=
  repeat innermost_case;
  try apply only_touches_same; try (apply only_touches_insert; by eauto).

Lemma Singleton_set_err_frame (ctx : loc) (e : option error) (σ : Singleton.State W) :
  only_touches ctx (Singleton.ctxs σ) (Singleton.ctxs (Singleton.set_err ctx e σ).2)
  ∧ Singleton.world (Singleton.set_err ctx e σ).2 = Singleton.world σ.
Proof. unfold Singleton.set_err. split; frame_cases; done. Qed.

Lemma Instantiable_set_err_frame (ctx : loc) (e : option error)
    (σ : Instantiable.State W) :
  only_touches ctx (Instantiable.ctxs σ) (Instantiable.ctxs (Instantiable.set_err ctx e σ).2)
  ∧ Instantiable.world (Instantiable.set_err ctx e σ).2 = Instantiable.world σ.
Proof. unfold Instantiable.set_err. split; frame_cases; done. Qed.

(** X13: what a call writes itself.  [Message] runs no function: it
    allocates and frees nothing, leaves every other context in memory and
    the world as they were.  [Must] and [MustErr] run the function they are
    given, which may write and make contexts as it likes, once and on the
    state of the call when the context has no error and not at all
    otherwise; beyond what that function did, they leave every other
    context, those the function made among them, and the world as they
    are.  In both engines. *)
Theorem calls_touch_only_their_context (ctx : loc) :
  (∀ message (σ : Singleton.State W),
      only_touches ctx (Singleton.ctxs σ)
        (Singleton.ctxs (Singleton.Message ctx message σ).2)
      ∧ Singleton.world (Singleton.Message ctx message σ).2 = Singleton.world σ)
  ∧ (∀ message (σ : Instantiable.State W),
      only_touches ctx (Instantiable.ctxs σ)
        (Instantiable.ctxs (Instantiable.Message ctx message σ).2)
      ∧ Instantiable.world (Instantiable.Message ctx message σ).2 = Instantiable.world σ)
  ∧ (∀ fnc (σ : Singleton.State W),
      only_touches ctx (Singleton.ctxs (Singleton_after ctx fnc σ))
        (Singleton.ctxs (Singleton.Must ctx fnc σ).2)
      ∧ Singleton.world (Singleton.Must ctx fnc σ).2
        = Singleton.world (Singleton_after ctx fnc σ))
  ∧ (∀ fnc (σ : Singleton.State W),
      only_touches ctx (Singleton.ctxs (Singleton_after ctx fnc σ))
        (Singleton.ctxs (Singleton.MustErr ctx fnc σ).2)
      ∧ Singleton.world (Singleton.MustErr ctx fnc σ).2
        = Singleton.world (Singleton_after ctx fnc σ))
  ∧ (∀ fnc (σ : Instantiable.State W),
      only_touches ctx (Instantiable.ctxs (Instantiable_after ctx fnc σ))
        (Instantiable.ctxs (Instantiable.Must ctx fnc σ).2)
      ∧ Instantiable.world (Instantiable.Must ctx fnc σ).2
        = Instantiable.world (Instantiable_after ctx fnc σ)).
Proof.
  split; [|split; [|split; [|split]]].
  - intros message σ.
    unfold Singleton.Message, mbind, M_bind, Singleton.load, mret, M_ret.
    destruct (Singleton.ctxs σ !! ctx) as [[[e|]]|]; cbn [Singleton.err];
      [|by split; [apply only_touches_same|]..].
    pose proof (Singleton_set_err_frame ctx (Some (errors_New message)) σ) as H.
    by destruct (Singleton.set_err _ _ σ) as [[[]|v] σ'].
  - intros message σ.
    unfold Instantiable.Message, mbind, M_bind, Instantiable.load, mret, M_ret.
    destruct (Instantiable.ctxs σ !! ctx) as [[v [e|]]|]; cbn [Instantiable.err];
      [|by split; [apply only_touches_same|]..].
    pose proof (Instantiable_set_err_frame ctx (Some (errors_New message)) σ) as H.
    by destruct (Instantiable.set_err _ _ σ) as [[[]|p] σ'].
  - intros fnc σ.
    unfold Singleton_after, Singleton.Must, mbind, M_bind, Singleton.load, mret, M_ret.
    destruct (Singleton.ctxs σ !! ctx) as [[[e|]]|]; cbn [Singleton.err];
      [by split; [apply only_touches_same|]| |by split; [apply only_touches_same|]].
    destruct (fnc σ) as [[[]|v] σ1]; cbn [negb snd];
      [by split; [apply only_touches_same|]| |by split; [apply only_touches_same|]].
    pose proof (Singleton_set_err_frame ctx (Some (errors_New "rule failed")) σ1) as H.
    by destruct (Singleton.set_err _ _ σ1) as [[[]|v] σ'].
  - intros fnc σ.
    unfold Singleton_after, Singleton.MustErr, mbind, M_bind, Singleton.load, mret, M_ret.
    destruct (Singleton.ctxs σ !! ctx) as [[[e|]]|]; cbn [Singleton.err];
      [by split; [apply only_touches_same|]| |by split; [apply only_touches_same|]].
    destruct (fnc σ) as [[e|v] σ1]; cbn [snd];
      [|by split; [apply only_touches_same|]].
    pose proof (Singleton_set_err_frame ctx e σ1) as H.
    by destruct (Singleton.set_err _ _ σ1) as [[[]|v] σ'].
  - intros fnc σ.
    unfold Instantiable_after, Instantiable.Must, mbind, M_bind, Instantiable.load,
      mret, M_ret.
    destruct (Instantiable.ctxs σ !! ctx) as [[p [e|]]|]; cbn [Instantiable.err];
      [by split; [apply only_touches_same|]| |by split; [apply only_touches_same|]].
    destruct (fnc σ) as [[[]|v] σ1]; cbn [negb snd];
      [by split; [apply only_touches_same|]| |by split; [apply only_touches_same|]].
    pose proof (Instantiable_set_err_frame ctx (Some (errors_New "rule failed")) σ1) as H.
    by destruct (Instantiable.set_err _ _ σ1) as [[[]|v] σ'].
Qed.
End Frame.

(** [MustErr] given a nested validation,
    [func() error { return ValidateStruct(p) }], on a context without
    error: the context the nested validation made stays in memory as that
    validation left it, and the context of the call takes the error it
    returned. *)
Lemma calls_touch_only_their_context_witness :
  only_touches 1%positive
    (Singleton.ctxs
       (Singleton_after 1%positive
          (Singleton.ValidateStruct person_registered (person "" 5)) fresh_Singleton))
    (Singleton.ctxs
       (Singleton.MustErr 1%positive
          (Singleton.ValidateStruct person_registered (person "" 5)) fresh_Singleton).2)
  ∧ Singleton.MustErr 1%positive
      (Singleton.ValidateStruct person_registered (person "" 5)) fresh_Singleton
    = (Ok 1%positive,
       Singleton.mk_state
         {[ 1%positive := Singleton.mk_ctx (Some (errors_New "age must be positive"));
            2%positive := Singleton.mk_ctx (Some (errors_New "age must be positive")) ]}
         0%nat).
Proof.
  split; [|reflexivity].
  apply (proj1 (proj2 (proj2 (proj2 (calls_touch_only_their_context (W:=nat) 1%positive))))
           (Singleton.ValidateStruct person_registered (person "" 5)) fresh_Singleton).
Defined.

(** ** Registration *)

Section Setup.
Context {W : Type}.
Implicit Types (g : Singleton.Globals W).

Lemma Init_rules g :
  Singleton.rules (Singleton.Init g).2
  = <["lessThan" := pure_rule lessThan]>
      (<["greaterThan" := pure_rule greaterThan]>
         (<["notEmpty" := pure_rule notEmpty_Init]> (Singleton.rules g))).
Proof. reflexivity. Qed.

(** X14: [Init] returns without panic on any tables; it binds "notEmpty",
    "greaterThan" and "lessThan" to the built-in rules, replacing whatever
    was registered under these names, and leaves the rules under every other
    name and all the type handlers as they were.  Running it again changes
    nothing. *)
Theorem Init_overwrites_its_three_names g :
  (Singleton.Init g).1 = Ok ()
  ∧ Singleton.typeHandlers (Singleton.Init g).2 = Singleton.typeHandlers g
  ∧ Singleton.rules (Singleton.Init g).2 !! "notEmpty" = Some (pure_rule notEmpty_Init)
  ∧ Singleton.rules (Singleton.Init g).2 !! "greaterThan" = Some (pure_rule greaterThan)
  ∧ Singleton.rules (Singleton.Init g).2 !! "lessThan" = Some (pure_rule lessThan)
  ∧ (∀ name, name ≠ "notEmpty" → name ≠ "greaterThan" → name ≠ "lessThan" →
       Singleton.rules (Singleton.Init g).2 !! name = Singleton.rules g !! name)
  ∧ Singleton.Init (Singleton.Init g).2 = Singleton.Init g.
Proof.
  split; [done|]. split; [done|]. rewrite Init_rules.
  split; [by rewrite 2!lookup_insert_ne, lookup_insert_eq by done|].
  split; [by rewrite lookup_insert_ne, lookup_insert_eq by done|].
  split; [by rewrite lookup_insert_eq|].
  split; [intros name H1 H2 H3; by rewrite !lookup_insert_ne|].
  unfold Singleton.Init, mbind, M_bind, Singleton.RegisterRule. simpl. do 2 f_equal.
  apply map_eq. intros name.
  destruct (decide (name = "lessThan")) as [->|H3]; [by rewrite !lookup_insert_eq|].
  rewrite !(lookup_insert_ne _ "lessThan") by done.
  destruct (decide (name = "greaterThan")) as [->|H2]; [by rewrite !lookup_insert_eq|].
  rewrite !(lookup_insert_ne _ "greaterThan") by done.
  destruct (decide (name = "notEmpty")) as [->|H1]; [by rewrite !lookup_insert_eq|].
  rewrite !(lookup_insert_ne _ "notEmpty") by done.
  by rewrite !lookup_insert_ne.
Qed.

(** X15: on the package-level tables, [RegisterRule] changes the entry of
    its name only and no type handler, [RegisterType] changes the handler of
    its type only and no rule; registrations under two different names, or
    of a rule and of a type, give the same tables in either order. *)
Theorem Singleton_registrations_are_independent g :
  (∀ ruleName fnc,
      Singleton.typeHandlers (Singleton.RegisterRule ruleName fnc g).2
      = Singleton.typeHandlers g
      ∧ ∀ other, other ≠ ruleName →
          Singleton.rules (Singleton.RegisterRule ruleName fnc g).2 !! other
          = Singleton.rules g !! other)
  ∧ (∀ T handler,
      Singleton.rules (Singleton.RegisterType T handler g).2 = Singleton.rules g
      ∧ ∀ other, other ≠ T →
          Singleton.typeHandlers (Singleton.RegisterType T handler g).2 !! other
          = Singleton.typeHandlers g !! other)
  ∧ (∀ name1 fnc1 name2 fnc2, name1 ≠ name2 →
      (Singleton.RegisterRule name2 fnc2 (Singleton.RegisterRule name1 fnc1 g).2).2
      = (Singleton.RegisterRule name1 fnc1 (Singleton.RegisterRule name2 fnc2 g).2).2)
  ∧ (∀ ruleName fnc T handler,
      (Singleton.RegisterType T handler (Singleton.RegisterRule ruleName fnc g).2).2
      = (Singleton.RegisterRule ruleName fnc (Singleton.RegisterType T handler g).2).2).
Proof.
  split; [|split; [|split]].
  - intros ruleName fnc. split; [done|]. intros other Hne. simpl.
    by rewrite lookup_insert_ne.
  - intros T handler. split; [done|]. intros other Hne. simpl.
    by rewrite lookup_insert_ne.
  - intros name1 fnc1 name2 fnc2 Hne. simpl. f_equal. by apply insert_insert_ne.
  - done.
Qed.

End Setup.


(** ** Validations, one after the other *)

Section Validations.
Context {W : Type}.
Implicit Types (g : Singleton.Globals W) (σ : Singleton.State W).

Lemma ValidateStruct_chain g (T : rtype) (body : any → list (Singleton.chain_call W))
    (s : any) σ :
  TypeOf s = Some T →
  Singleton.ValidateStruct (Singleton.RegisterType T (Singleton.chain_handler body) g).2 s σ
  = match Singleton.first_failure (Singleton.rules g) (body s) (Singleton.world σ) with
    | (Ok e, w) =>
      (Ok e,
       Singleton.mk_state
         (<[fresh (dom (Singleton.ctxs σ)) := Singleton.mk_ctx e]> (Singleton.ctxs σ)) w)
    | (Panic p, w) =>
      (Panic p,
       Singleton.mk_state
         (<[fresh (dom (Singleton.ctxs σ)) := Singleton.mk_ctx None]> (Singleton.ctxs σ)) w)
    end.
Proof.
  intros HT. unfold Singleton.ValidateStruct. rewrite HT. simpl.
  rewrite lookup_insert_eq. destruct (decide (TypeOf s = Some T)) as [_|]; [|done].
  unfold mbind at 1 2, M_bind at 1 2, Singleton.alloc_ctx.
  unfold Singleton.chain_handler. unfold mbind at 1, M_bind at 1.
  rewrite run_chain_first_failure by (simpl; apply lookup_insert_eq). simpl.
  destruct (Singleton.first_failure _ _ _) as [[e|p] w]; [|done].
  unfold mret at 1, M_ret at 1. unfold mbind, M_bind, Singleton.load. simpl.
  rewrite lookup_insert_eq. simpl. unfold mret, M_ret.
  by rewrite insert_insert_eq.
Qed.

(** X17: validations do not interfere through the contexts: for a handler
    that is a chain of calls, the outcome of [ValidateStruct] and the world
    it leaves depend on the world of the closures only, not on the contexts
    earlier validations left in memory, failed or not; and it leaves each of
    those contexts as it was. *)
Theorem ValidateStruct_ignores_earlier_contexts g (T : rtype)
    (body : any → list (Singleton.chain_call W)) (s : any) σ σ0 :
  TypeOf s = Some T →
  Singleton.world σ = Singleton.world σ0 →
  (Singleton.ValidateStruct
     (Singleton.RegisterType T (Singleton.chain_handler body) g).2 s σ).1
  = (Singleton.ValidateStruct
       (Singleton.RegisterType T (Singleton.chain_handler body) g).2 s σ0).1
  ∧ Singleton.world (Singleton.ValidateStruct
       (Singleton.RegisterType T (Singleton.chain_handler body) g).2 s σ).2
    = Singleton.world (Singleton.ValidateStruct
         (Singleton.RegisterType T (Singleton.chain_handler body) g).2 s σ0).2
  ∧ (∀ l c, Singleton.ctxs σ !! l = Some c →
       Singleton.ctxs (Singleton.ValidateStruct
         (Singleton.RegisterType T (Singleton.chain_handler body) g).2 s σ).2 !! l
       = Some c).
Proof.
  intros HT Hw. rewrite !(ValidateStruct_chain g T body s) by done. rewrite Hw.
  destruct (Singleton.first_failure _ _ _) as [[e|p] w]; simpl;
    (split; [done|]; split; [done|]); intros l c Hl;
    (rewrite lookup_insert_ne; [done|]); intros <-;
    apply (is_fresh (dom (Singleton.ctxs σ))), elem_of_dom; eauto.
Qed.

(** X18: [ValidateStruct] uses the tables as they are when it is called:
    the handler registered last for a type is the one run; a handler
    registered for another type changes nothing for the values of this one;
    and a rule registered after the handler gives the same validation as the
    same rule registered before it. *)
Theorem ValidateStruct_uses_current_tables g (T : rtype) (s : any) σ :
  (∀ handler1 handler2,
      Singleton.ValidateStruct
        (Singleton.RegisterType T handler2 (Singleton.RegisterType T handler1 g).2).2 s σ
      = Singleton.ValidateStruct (Singleton.RegisterType T handler2 g).2 s σ)
  ∧ (∀ handler, TypeOf s ≠ Some T →
      Singleton.ValidateStruct (Singleton.RegisterType T handler g).2 s σ
      = Singleton.ValidateStruct g s σ)
  ∧ (∀ handler ruleName fnc,
      Singleton.ValidateStruct
        (Singleton.RegisterRule ruleName fnc (Singleton.RegisterType T handler g).2).2 s σ
      = Singleton.ValidateStruct
          (Singleton.RegisterType T handler (Singleton.RegisterRule ruleName fnc g).2).2 s σ)
  ∧ (∀ handler, TypeOf s = Some T →
      Singleton.ValidateStruct (Singleton.RegisterType T handler g).2 s σ
      = (ctx ← Singleton.alloc_ctx;
         _ ← handler (Singleton.rules g) s ctx;
         c ← Singleton.load ctx;
         mret (Singleton.err c)) σ).
Proof.
  split; [|split; [|split]].
  - intros handler1 handler2. simpl. by rewrite insert_insert_eq.
  - intros handler Hne. unfold Singleton.ValidateStruct. simpl.
    destruct (TypeOf s) as [U|]; [|done].
    rewrite lookup_insert_ne by congruence. done.
  - done.
  - intros handler HT. unfold Singleton.ValidateStruct. rewrite HT. simpl.
    rewrite lookup_insert_eq. by destruct (decide (TypeOf s = Some T)).
Qed.
End Validations.

(** A validation run after a failed one, on the worked example. *)
Lemma ValidateStruct_ignores_earlier_contexts_witness :
  (Singleton.ValidateStruct
     (Singleton.RegisterType person_type (Singleton.chain_handler person_checks)
        counting_rules).2 (person "Al" 5) failed_Singleton).1
  = (Singleton.ValidateStruct
       (Singleton.RegisterType person_type (Singleton.chain_handler person_checks)
          counting_rules).2 (person "Al" 5) no_contexts).1.
Proof.
  apply (ValidateStruct_ignores_earlier_contexts counting_rules person_type person_checks
           (person "Al" 5) failed_Singleton no_contexts eq_refl eq_refl).
Defined.

(** ** The two engines side by side *)

Section Engines.
Context {W : Type}.

Lemma forget_validator_lookup (σ : Instantiable.State W) (ctx : loc) :
  Singleton.ctxs (forget_validator σ) !! ctx
  = (fun c => Singleton.mk_ctx (Instantiable.err c)) <$> Instantiable.ctxs σ !! ctx.
Proof. unfold forget_validator. simpl. apply lookup_fmap. Qed.

Lemma forget_validator_set_err (σ : Instantiable.State W) (ctx : loc)
    (e : option error) :
  forget_validator_result (Instantiable.set_err ctx e σ)
  = Singleton.set_err ctx e (forget_validator σ).
Proof.
  unfold forget_validator_result, Instantiable.set_err, Singleton.set_err.
  rewrite forget_validator_lookup.
  destruct (Instantiable.ctxs σ !! ctx) as [c|]; [|done]. simpl.
  unfold forget_validator. simpl. by rewrite fmap_insert.
Qed.

Lemma same_function_Must (ctx : loc) (fnc1 : M (Instantiable.State W) bool)
    (fnc2 : M (Singleton.State W) bool) :
  same_function fnc1 fnc2 →
  same_function (Instantiable.Must ctx fnc1) (Singleton.Must ctx fnc2).
Proof.
  intros Hfnc σ.
  unfold forget_validator_result, Instantiable.Must, Singleton.Must, mbind, M_bind,
    Instantiable.load, Singleton.load.
  rewrite forget_validator_lookup.
  destruct (Instantiable.ctxs σ !! ctx) as [[p [e|]]|]; [done| |done]. simpl.
  rewrite <- (Hfnc σ). unfold forget_validator_result.
  destruct (fnc1 σ) as [[[]|v] σ1]; simpl; [done| |done].
  rewrite <- (forget_validator_set_err σ1 ctx). unfold forget_validator_result.
  by destruct (Instantiable.set_err _ _ σ1) as [[[]|v] σ'].
Qed.

Lemma same_function_call {A} (f : M W A) :
  same_function (Instantiable.call f) (Singleton.call f).
Proof.
  intros σ. unfold forget_validator_result, Instantiable.call, Singleton.call. simpl.
  by destruct (f (Instantiable.world σ)).
Qed.

Lemma same_function_Message (ctx : loc) (message : string) :
  same_function (W:=W) (Instantiable.Message ctx message) (Singleton.Message ctx message).
Proof.
  intros σ.
  unfold forget_validator_result, Instantiable.Message, Singleton.Message, mbind, M_bind,
    Instantiable.load, Singleton.load.
  rewrite forget_validator_lookup.
  destruct (Instantiable.ctxs σ !! ctx) as [[p [e|]]|]; [|done..]. simpl.
  rewrite <- (forget_validator_set_err σ ctx). unfold forget_validator_result.
  by destruct (Instantiable.set_err _ _ σ) as [[[]|v] σ'].
Qed.

Lemma same_function_Check (R : Instantiable.RuleTables W) (ctx : loc)
    (σ : Instantiable.State W) (c : Instantiable.ValidationContext)
    (table : gmap string (list any → M W (option error)))
    (handlerName : string) (params : list any) :
  Instantiable.ctxs σ !! ctx = Some c →
  (Instantiable.err c = None →
   R !! Instantiable.validator c = Some (Some table) ∧ is_Some (table !! handlerName)) →
  forget_validator_result (Instantiable.Check R ctx handlerName params σ)
  = Singleton.Check table ctx handlerName params (forget_validator σ).
Proof.
  intros Hctx HR.
  unfold forget_validator_result, Instantiable.Check, Singleton.Check, mbind, M_bind,
    Instantiable.load, Singleton.load.
  rewrite forget_validator_lookup, Hctx. simpl.
  destruct (Instantiable.err c) as [e|]; [done|].
  destruct (HR eq_refl) as [HR' [rule Hrule]].
  unfold Instantiable.RuleTables, Instantiable.RuleFunc, Singleton.RuleFunc in *.
  rewrite HR'. simpl. rewrite Hrule.
  pose proof (same_function_call (rule params) σ) as Hcall.
  rewrite <- Hcall. unfold forget_validator_result.
  destruct (Instantiable.call (rule params) σ) as [[e|v] σ1]; simpl; [|done].
  rewrite <- (forget_validator_set_err σ1 ctx). unfold forget_validator_result.
  by destruct (Instantiable.set_err _ _ σ1) as [[[]|v] σ'].
Qed.

(** X19: the two engines run the same protocol.  Seen without the pointer
    to the [Validator], on every state and for every context, nil or not:
    [Message] of the engine with a [Validator] does what that of the engine
    with package-level tables does; so does [Must], for every function,
    whatever it does to the contexts, that is run in both engines; and so
    does [Check] against the table of the context's [Validator], on a
    context that has failed whatever the tables, and on one that has not
    for a name registered in that table.  Where the name is not in the
    table, or the table is a nil map, both engines panic and leave the
    state as it was, under different texts; where the context has no
    [Validator], the engine with a [Validator] panics on the nil pointer. *)
Theorem engines_agree (ctx : loc) :
  (∀ message (σ : Instantiable.State W),
      forget_validator_result (Instantiable.Message ctx message σ)
      = Singleton.Message ctx message (forget_validator σ))
  ∧ (∀ (fnc1 : M (Instantiable.State W) bool) (fnc2 : M (Singleton.State W) bool),
      same_function fnc1 fnc2 →
      ∀ σ, forget_validator_result (Instantiable.Must ctx fnc1 σ)
           = Singleton.Must ctx fnc2 (forget_validator σ))
  ∧ (∀ (f : M W bool) σ,
      forget_validator_result (Instantiable.Must ctx (Instantiable.call f) σ)
      = Singleton.Must ctx (Singleton.call f) (forget_validator σ))
  ∧ (∀ (R : Instantiable.RuleTables W) σ c table handlerName params,
      Instantiable.ctxs σ !! ctx = Some c →
      (Instantiable.err c = None →
       R !! Instantiable.validator c = Some (Some table)
       ∧ is_Some (table !! handlerName)) →
      forget_validator_result (Instantiable.Check R ctx handlerName params σ)
      = Singleton.Check table ctx handlerName params (forget_validator σ))
  ∧ (∀ (R : Instantiable.RuleTables W) σ handlerName params
       (table : gmap string (Singleton.RuleFunc W)),
      Instantiable.ctxs σ !! ctx = None →
      forget_validator_result (Instantiable.Check R ctx handlerName params σ)
      = Singleton.Check table ctx handlerName params (forget_validator σ))
  ∧ (∀ (R : Instantiable.RuleTables W) σ c nilable handlerName params,
      Instantiable.ctxs σ !! ctx = Some c → Instantiable.err c = None →
      R !! Instantiable.validator c = Some nilable →
      nilable ≫= (.!! handlerName) = None →
      Instantiable.Check R ctx handlerName params σ
      = (Panic (Lit ("Rule " +:+ handlerName
                     +:+ " has not been registered to specified validator")), σ)
      ∧ Singleton.Check (default ∅ nilable) ctx handlerName params (forget_validator σ)
        = (Panic (Lit ("Rule " +:+ handlerName +:+ " has not been registered")),
           forget_validator σ))
  ∧ (∀ (R : Instantiable.RuleTables W) σ c handlerName params,
      Instantiable.ctxs σ !! ctx = Some c → Instantiable.err c = None →
      R !! Instantiable.validator c = None →
      Instantiable.Check R ctx handlerName params σ = (Panic nil_dereference, σ)).
Proof.
  split; [intros; apply same_function_Message|].
  split; [intros fnc1 fnc2 Hfnc σ; by apply same_function_Must|].
  split; [intros f σ; apply same_function_Must, same_function_call|].
  split; [intros; by eapply same_function_Check|].
  split; [|split].
  - intros R σ handlerName params table Hctx.
    unfold forget_validator_result, Instantiable.Check, Singleton.Check, mbind, M_bind,
      Instantiable.load, Singleton.load.
    by rewrite forget_validator_lookup, Hctx.
  - intros R σ c nilable handlerName params Hctx Herr HR Hname.
    unfold Instantiable.Check, Singleton.Check, mbind, M_bind,
      Instantiable.load, Singleton.load.
    rewrite forget_validator_lookup, Hctx. simpl. rewrite Herr.
    unfold Instantiable.RuleTables, Instantiable.RuleFunc, Singleton.RuleFunc in *.
    rewrite HR. destruct nilable as [table|]; simpl in *.
    + by rewrite Hname.
    + by rewrite lookup_empty.
  - intros R σ c handlerName params Hctx Herr HR.
    unfold Instantiable.Check, mbind, M_bind, Instantiable.load.
    rewrite Hctx, Herr.
    unfold Instantiable.RuleTables, Instantiable.RuleFunc in *. by rewrite HR.
Qed.
End Engines.

(** [Check] of a registered rule on a context without error, in the two
    engines: [notEmpty] of [New] on an empty string. *)
Lemma engines_agree_witness :
  forget_validator_result
    (Instantiable.Check {[ 2%positive := Some {[ "notEmpty" := pure_rule notEmpty_New ]} ]}
       1%positive "notEmpty" [str ""] fresh_Instantiable)
  = Singleton.Check {[ "notEmpty" := pure_rule notEmpty_New ]}
      1%positive "notEmpty" [str ""] (forget_validator fresh_Instantiable)
  ∧ (Singleton.Check {[ "notEmpty" := pure_rule notEmpty_New ]}
       1%positive "notEmpty" [str ""] (forget_validator fresh_Instantiable)).1
    = Ok 1%positive
  ∧ Singleton.ctxs
      (Singleton.Check {[ "notEmpty" := pure_rule notEmpty_New ]}
         1%positive "notEmpty" [str ""] (forget_validator fresh_Instantiable)).2
    !! 1%positive
    = Some (Singleton.mk_ctx (Some (errors_New "required rule failed"))).
Proof.
  split; [|split; reflexivity].
  apply (proj1 (proj2 (proj2 (proj2 (engines_agree (W:=nat) 1%positive))))
           {[ 2%positive := Some {[ "notEmpty" := pure_rule notEmpty_New ]} ]}
           fresh_Instantiable (Instantiable.mk_ctx 2%positive None)
           {[ "notEmpty" := pure_rule notEmpty_New ]} "notEmpty" [str ""]).
  - reflexivity.
  - intros _. split; [reflexivity|]. by eexists.
Defined.
